(** * ClientTCP: the TCP client transport of the microservices package

    A shallow embedding of [packages/microservices/client/client-tcp.ts].

    The class [ClientTCP] is an object with mutable fields that reacts to
    socket events and calls caller-supplied callbacks.  It is embedded as

    - a record [State] holding the fields of the object together with the
      part of the surrounding world the methods touch (listeners bound on
      sockets, allocation counters, and the list of effects performed);
    - a state-and-exception monad [M] in which each method is a function;
    - an environment [Env] for the collaborators the class only consumes
      (serializer, deserializer, the framed socket's [sendMessage], the
      identifier source, and the constants of [../constants]).

    Callbacks stored in the routing map are supplied by the caller.  They are
    opaque here: a callback is a handle, and calling it is recorded as an
    [Invoke] effect carrying the outcome it received.  A callback is taken to
    return normally.  The one thing a callback is known to do to the client
    while it runs is what the caller of [publish] does on a terminal outcome,
    to call the cancellation function of its request; [handleResponse_send]
    is [handleResponse] with such a callback.

    [handleResponse] is an async function.  A call of it runs up to its
    [await] and returns; the rest of its body runs later, as a microtask, and
    is what [handleResponse] below embeds. *)

From Stdlib Require Import List String ZArith Bool Arith Lia DecimalString.
Import ListNotations.
Open Scope string_scope.

(** ** JavaScript values *)

(** The prototype an object was built from, as far as [instanceof] in the
    source can tell them apart. *)
Inductive Class : Type :=
| ObjectClass
| ErrorClass
| TypeErrorClass
| EmptyErrorClass.

(** Numbers are integers here; the source never computes with them. *)
#[warnings="-register-all"]
Inductive Value : Type :=
| VUndefined
| VNull
| VBool (b : bool)
| VNum (z : Z)
| VStr (s : string)
| VObject (proto : Class) (fields : list (string * Value)).

(** JavaScript truthiness, as used by [if (x)], [!x] and [a || b]. *)
Definition truthy (v : Value) : bool :=
  match v with
  | VUndefined | VNull => false
  | VBool b => b
  | VNum z => negb (Z.eqb z 0)
  | VStr s => negb (String.eqb s EmptyString)
  | VObject _ _ => true
  end.

(** [v === s] for a string constant [s]. *)
Definition strict_eq_str (v : Value) (s : string) : bool :=
  match v with
  | VStr t => String.eqb t s
  | _ => false
  end.

Fixpoint lookup_field (name : string) (fields : list (string * Value)) : Value :=
  match fields with
  | [] => VUndefined
  | (k, v) :: rest => if String.eqb k name then v else lookup_field name rest
  end.

(** [err instanceof EmptyError] *)
Definition instanceof_EmptyError (v : Value) : bool :=
  match v with
  | VObject EmptyErrorClass _ => true
  | _ => false
  end.

(** [new Error(message)] *)
Definition new_Error (message : string) : Value :=
  VObject ErrorClass [("message", VStr message)].

(** The [TypeError] raised by reading a property of [undefined] or [null]. *)
Definition new_TypeError (message : string) : Value :=
  VObject TypeErrorClass [("message", VStr message)].

(** ** Results and the state-and-exception monad *)

(** A computation either returns or throws a JavaScript value. *)
Inductive Result (A : Type) : Type :=
| Ret (a : A)
| Throw (e : Value).
Arguments Ret {A} a.
Arguments Throw {A} e.

(** [v.name]: reading a property throws on [undefined] and [null], gives
    [undefined] on the other primitives. *)
Definition get_prop (v : Value) (name : string) : Result Value :=
  match v with
  | VUndefined | VNull => Throw (new_TypeError "Cannot read properties")
  | VObject _ fields => Ret (lookup_field name fields)
  | _ => Ret VUndefined
  end.

(** ** Identifiers, callbacks, packets *)

Definition PacketId := string.
Definition SocketId := nat.
Definition PromiseId := nat.

(** A caller-supplied callback [(packet: WritePacket) => any]. *)
Definition Callback := nat.

(** [ReadPacket]: what the caller hands to [publish]. *)
Record ReadPacket : Type := mkReadPacket {
  rp_pattern : Value;
  rp_data : Value
}.

(** [ReadPacket & PacketId]: the packet after [assignPacketId]. *)
Record Packet : Type := mkPacket {
  pk_id : PacketId;
  pk_pattern : Value;
  pk_data : Value
}.

(** The fields [handleResponse] destructures from the deserialized message. *)
Record InPacket : Type := mkInPacket {
  in_err : Value;
  in_response : Value;
  in_isDisposed : Value;
  in_id : PacketId
}.

(** [WritePacket]: the object literal a callback is called with.  A field the
    literal leaves out is [VUndefined]. *)
Record Outcome : Type := mkOutcome {
  o_err : Value;
  o_response : Value;
  o_isDisposed : Value
}.

(** ** The routing map

    [routingMap] is a JavaScript [Map<string, Function>]: it iterates in
    insertion order and holds a key once. *)
Module RoutingMap.

Definition t := list (PacketId * Callback).

Definition empty : t := [].

Fixpoint get (id : PacketId) (m : t) : option Callback :=
  match m with
  | [] => None
  | (k, cb) :: rest => if String.eqb k id then Some cb else get id rest
  end.

Definition has (id : PacketId) (m : t) : bool :=
  match get id m with Some _ => true | None => false end.

(** [Map.prototype.set]: an existing key keeps its place and takes the new
    value; a new key goes last. *)
Fixpoint set (id : PacketId) (cb : Callback) (m : t) : t :=
  match m with
  | [] => [(id, cb)]
  | (k, c) :: rest =>
      if String.eqb k id then (k, cb) :: rest else (k, c) :: set id cb rest
  end.

(** [Map.prototype.delete] *)
Definition delete (id : PacketId) (m : t) : t :=
  filter (fun kc => negb (String.eqb (fst kc) id)) m.

Definition size (m : t) : nat := List.length m.

Definition values (m : t) : list Callback := map snd m.

Definition keys (m : t) : list PacketId := map fst m.

Definition clear (m : t) : t := empty.

End RoutingMap.

(** ** Sockets, events and effects *)

(** Modelled from the spec: the event names [ERROR_EVENT], [CLOSE_EVENT] and
    [MESSAGE_EVENT] are imported from [../constants], which is not among the
    sources; the framed socket has exactly these three events, [error],
    [close] and [message], and they are distinct. *)
Inductive EventName : Type :=
| ERROR_EVENT
| CLOSE_EVENT
| MESSAGE_EVENT.

Definition EventName_eqb (a b : EventName) : bool :=
  match a, b with
  | ERROR_EVENT, ERROR_EVENT => true
  | CLOSE_EVENT, CLOSE_EVENT => true
  | MESSAGE_EVENT, MESSAGE_EVENT => true
  | _, _ => false
  end.

(** An event a framed socket emits, with its argument. *)
Inductive SocketEvent : Type :=
| ErrorEv (err : Value)
| CloseEv
| MessageEv (buffer : Value).

Definition event_name (ev : SocketEvent) : EventName :=
  match ev with
  | ErrorEv _ => ERROR_EVENT
  | CloseEv => CLOSE_EVENT
  | MessageEv _ => MESSAGE_EVENT
  end.

(** Whether the binding [b] is a listener on socket [s] for the event [name]. *)
Definition listens (s : nat) (name : EventName) (b : nat * EventName) : bool :=
  Nat.eqb (fst b) s && EventName_eqb (snd b) name.

(** The field [socket: TcpSocket]: [undefined] until the first [connect],
    [null] after a teardown, otherwise a socket object. *)
Inductive SocketRef : Type :=
| SUndefined
| SNull
| SObj (s : SocketId).

(** What the client does to the world outside its own fields, in the order
    it does it. *)
Inductive Effect : Type :=
| Invoke (cb : Callback) (o : Outcome)
| LogError (err : Value)
| SocketCreate (s : SocketId) (tls : bool)
| SocketConnect (s : SocketId) (port : Value) (host : Value)
| SocketEnd (s : SocketId)
| SocketSend (s : SocketId) (payload : Value).

(** The function [publish] returns: [() => this.routingMap.delete(packet.id)]. *)
Inductive Teardown : Type :=
| Unsubscribe (id : PacketId).

(** ** The object and its world *)

Record State : Type := mkState {
  (* fields of ClientTCP and of its base class *)
  port : Value;
  host : Value;
  tlsOptions : Value;
  isConnected : bool;
  socket : SocketRef;
  connection : option PromiseId;
  routingMap : RoutingMap.t;
  (* the world *)
  listeners : list (SocketId * EventName);
  next_socket : nat;
  next_promise : nat;
  next_packet : nat;
  effects : list Effect
}.

(** The collaborators and constants the class consumes. *)
Record Env : Type := mkEnv {
  ECONNREFUSED : string;
  TCP_DEFAULT_PORT : Value;
  TCP_DEFAULT_HOST : Value;
  (* this.serializer.serialize: may throw *)
  serialize : Packet -> Result Value;
  (* this.deserializer.deserialize: may reject *)
  deserialize : Value -> Result InPacket;
  (* TcpSocket.sendMessage on a socket object, given what happened so far *)
  sendMessage : list Effect -> SocketId -> Value -> Result unit;
  (* the identifier source behind assignPacketId *)
  randomStringGenerator : nat -> PacketId
}.

Definition M (A : Type) : Type := State -> Result A * State.

Definition ret {A} (a : A) : M A := fun st => (Ret a, st).

Definition throw {A} (e : Value) : M A := fun st => (Throw e, st).

Definition bind {A B} (m : M A) (k : A -> M B) : M B :=
  fun st =>
    match m st with
    | (Ret a, st') => k a st'
    | (Throw e, st') => (Throw e, st')
    end.

(** [try { m } catch (err) { h err }]: what [m] did to the state before it
    threw stays done. *)
Definition try_catch {A} (m : M A) (h : Value -> M A) : M A :=
  fun st =>
    match m st with
    | (Ret a, st') => (Ret a, st')
    | (Throw e, st') => h e st'
    end.

Definition lift {A} (r : Result A) : M A := fun st => (r, st).

Definition gets {A} (f : State -> A) : M A := fun st => (Ret (f st), st).

Definition modify (f : State -> State) : M unit := fun st => (Ret tt, f st).

Declare Scope client_scope.
Delimit Scope client_scope with client.
Notation "x <- m ;; k" := (bind m (fun x => k))
  (at level 61, m at next level, right associativity) : client_scope.
Notation "m ;; k" := (bind m (fun _ => k))
  (at level 61, right associativity) : client_scope.
Open Scope client_scope.

(** Runs [f] on each element in order and stops at the first throw. *)
Fixpoint for_each {A} (l : list A) (f : A -> M unit) : M unit :=
  match l with
  | [] => ret tt
  | a :: rest => f a ;; for_each rest f
  end.

(** *** Field assignments *)

Definition set_isConnected (b : bool) (st : State) : State :=
  mkState (port st) (host st) (tlsOptions st) b (socket st) (connection st)
    (routingMap st) (listeners st) (next_socket st) (next_promise st)
    (next_packet st) (effects st).

Definition set_socket (s : SocketRef) (st : State) : State :=
  mkState (port st) (host st) (tlsOptions st) (isConnected st) s (connection st)
    (routingMap st) (listeners st) (next_socket st) (next_promise st)
    (next_packet st) (effects st).

Definition set_connection (c : option PromiseId) (st : State) : State :=
  mkState (port st) (host st) (tlsOptions st) (isConnected st) (socket st) c
    (routingMap st) (listeners st) (next_socket st) (next_promise st)
    (next_packet st) (effects st).

Definition set_routingMap (m : RoutingMap.t) (st : State) : State :=
  mkState (port st) (host st) (tlsOptions st) (isConnected st) (socket st)
    (connection st) m (listeners st) (next_socket st) (next_promise st)
    (next_packet st) (effects st).

Definition add_listener (s : SocketId) (ev : EventName) (st : State) : State :=
  mkState (port st) (host st) (tlsOptions st) (isConnected st) (socket st)
    (connection st) (routingMap st) (listeners st ++ [(s, ev)]) (next_socket st)
    (next_promise st) (next_packet st) (effects st).

Definition set_next_socket (n : nat) (st : State) : State :=
  mkState (port st) (host st) (tlsOptions st) (isConnected st) (socket st)
    (connection st) (routingMap st) (listeners st) n (next_promise st)
    (next_packet st) (effects st).

Definition set_next_promise (n : nat) (st : State) : State :=
  mkState (port st) (host st) (tlsOptions st) (isConnected st) (socket st)
    (connection st) (routingMap st) (listeners st) (next_socket st) n
    (next_packet st) (effects st).

Definition set_next_packet (n : nat) (st : State) : State :=
  mkState (port st) (host st) (tlsOptions st) (isConnected st) (socket st)
    (connection st) (routingMap st) (listeners st) (next_socket st)
    (next_promise st) n (effects st).

Definition record (e : Effect) (st : State) : State :=
  mkState (port st) (host st) (tlsOptions st) (isConnected st) (socket st)
    (connection st) (routingMap st) (listeners st) (next_socket st)
    (next_promise st) (next_packet st) (effects st ++ [e]).

(** [callback(outcome)] *)
Definition invoke (cb : Callback) (o : Outcome) : M unit :=
  modify (record (Invoke cb o)).

(** Reading [this.socket] in order to call a method on it. *)
Definition this_socket : M SocketId :=
  fun st =>
    match socket st with
    | SObj s => (Ret s, st)
    | _ => (Throw (new_TypeError "Cannot read properties"), st)
    end.

(** [a || b] *)
Definition js_or (a b : Value) : Value := if truthy a then a else b.

(** ** Promises, as far as [connect] builds one *)

(** How a promise settles. *)
Inductive Settled : Type :=
| Resolved (v : Value)
| Rejected (e : Value).

(** How the observable [source$] ends: after a last value, with no value at
    all, or with an error. *)
Inductive SourceEnd : Type :=
| CompletedWith (last : Value)
| CompletedEmpty
| Errored (e : Value).

(** [new EmptyError()] of rxjs. *)
Definition new_EmptyError : Value :=
  VObject EmptyErrorClass
    [("name", VStr "EmptyError"); ("message", VStr "no elements in sequence")].

(** [lastValueFrom(source$)] of rxjs, without a default value. *)
Definition lastValueFrom (src : SourceEnd) : Settled :=
  match src with
  | CompletedWith v => Resolved v
  | CompletedEmpty => Rejected new_EmptyError
  | Errored e => Rejected e
  end.

(** [promise.catch(handler)]: the handler's return value resolves the new
    promise, what it throws rejects it. *)
Definition promise_catch (p : Settled) (handler : Value -> Result Value) : Settled :=
  match p with
  | Resolved v => Resolved v
  | Rejected e =>
      match handler e with
      | Ret v => Resolved v
      | Throw e' => Rejected e'
      end
  end.

(** The handler [connect] passes to [catch]. *)
Definition connect_catch (err : Value) : Result Value :=
  if instanceof_EmptyError err then Ret VUndefined else Throw err.

(** How [this.connection] settles, given how [source$] ends. *)
Definition connection_settles (src : SourceEnd) : Settled :=
  promise_catch (lastValueFrom src) connect_catch.

(** ** The methods of ClientTCP *)

(** The [options] object given to the constructor. *)
Record Options : Type := mkOptions {
  opt_port : Value;
  opt_host : Value;
  opt_tlsOptions : Value
}.

Section Methods.

Variable env : Env.

(** [constructor(options)], with the field initialisers of the class and
    the empty [routingMap] of its base class. *)
Definition constructor (options : Options) : State :=
  {| port := js_or (opt_port options) (TCP_DEFAULT_PORT env);
     host := js_or (opt_host options) (TCP_DEFAULT_HOST env);
     tlsOptions := opt_tlsOptions options;
     isConnected := false;
     socket := SUndefined;
     connection := None;
     routingMap := RoutingMap.empty;
     listeners := [];
     next_socket := 0;
     next_promise := 0;
     next_packet := 0;
     effects := [] |}.

(** [createSocket()]: a TLS socket when [tlsOptions] is set, a plain one
    otherwise, wrapped in the socket class. *)
Definition createSocket : M SocketId :=
  fun st =>
    let s := next_socket st in
    (Ret s, record (SocketCreate s (truthy (tlsOptions st)))
              (set_next_socket (S s) st)).

(** [socket.on(event, listener)]: the listener is the one the source binds
    for that event. *)
Definition socket_on (s : SocketId) (ev : EventName) : M unit :=
  modify (add_listener s ev).

(** [bindEvents(socket)] *)
Definition bindEvents (s : SocketId) : M unit :=
  socket_on s ERROR_EVENT ;;
  socket_on s CLOSE_EVENT.

(** [handleError(err)] *)
Definition handleError (err : Value) : M unit :=
  modify (record (LogError err)).

(** [handleClose()] *)
Definition handleClose : M unit :=
  modify (set_isConnected false) ;;
  modify (set_socket SNull) ;;
  modify (set_connection None) ;;
  m <- gets routingMap ;;
  if (0 <? RoutingMap.size m)%nat then
    let err := new_Error "Connection closed" in
    for_each (RoutingMap.values m)
      (fun callback => invoke callback (mkOutcome err VUndefined VUndefined)) ;;
    modify (set_routingMap (RoutingMap.clear m))
  else ret tt.

(** [handleResponse(buffer)], from the point where the deserializer has
    answered; a throw stands for the rejection of the returned promise. *)
Definition handleResponse (buffer : Value) : M unit :=
  pkt <- lift (deserialize env buffer) ;;
  callback <- gets (fun st => RoutingMap.get (in_id pkt) (routingMap st)) ;;
  match callback with
  | None => ret tt
  | Some cb =>
      if truthy (in_isDisposed pkt) || truthy (in_err pkt) then
        invoke cb (mkOutcome (in_err pkt) (in_response pkt) (VBool true))
      else
        invoke cb (mkOutcome (in_err pkt) (in_response pkt) VUndefined)
  end.

(** The function given to [tap] in [connect]: it runs when the underlying
    stream reports that it is connected. *)
Definition connect_tap : M unit :=
  modify (set_isConnected true) ;;
  s <- this_socket ;;
  socket_on s MESSAGE_EVENT.

(** [connect()] *)
Definition connect : M PromiseId :=
  c <- gets connection ;;
  match c with
  | Some p => ret p
  | None =>
      s <- createSocket ;;
      modify (set_socket (SObj s)) ;;
      s1 <- this_socket ;;
      bindEvents s1 ;;
      tls <- gets tlsOptions ;;
      (if negb (truthy tls) then
         s2 <- this_socket ;;
         p <- gets port ;;
         h <- gets host ;;
         modify (record (SocketConnect s2 p h))
       else ret tt) ;;
      p <- gets next_promise ;;
      modify (set_next_promise (S p)) ;;
      modify (set_connection (Some p)) ;;
      ret p
  end.

(** [close()] *)
Definition close : M unit :=
  s <- gets socket ;;
  match s with
  | SObj i => modify (record (SocketEnd i))
  | _ => ret tt
  end ;;
  handleClose.

(** Modelled from the spec: [assignPacketId] belongs to the base class
    [ClientProxy], which is not among the sources; it assigns the packet an
    identifier taken from the identifier source. *)
Definition assignPacketId (partialPacket : ReadPacket) : M Packet :=
  n <- gets next_packet ;;
  modify (set_next_packet (S n)) ;;
  ret (mkPacket (randomStringGenerator env n)
         (rp_pattern partialPacket) (rp_data partialPacket)).

(** [this.socket.sendMessage(payload)] *)
Definition socket_sendMessage (payload : Value) : M unit :=
  s <- this_socket ;;
  history <- gets effects ;;
  lift (sendMessage env history s payload) ;;
  modify (record (SocketSend s payload)).

(** [publish(partialPacket, callback)]: [None] is the [undefined] the
    function returns when it leaves through the [catch] block. *)
Definition publish (partialPacket : ReadPacket) (callback : Callback)
  : M (option Teardown) :=
  try_catch
    (packet <- assignPacketId partialPacket ;;
     serializedPacket <- lift (serialize env packet) ;;
     modify (fun st =>
               set_routingMap
                 (RoutingMap.set (pk_id packet) callback (routingMap st)) st) ;;
     socket_sendMessage serializedPacket ;;
     ret (Some (Unsubscribe (pk_id packet))))
    (fun err =>
       invoke callback (mkOutcome err VUndefined VUndefined) ;;
       ret None).

(** Calling the function [publish] returned. *)
Definition run_teardown (t : Teardown) : M bool :=
  match t with
  | Unsubscribe id =>
      had <- gets (fun st => RoutingMap.has id (routingMap st)) ;;
      modify (fun st =>
                set_routingMap (RoutingMap.delete id (routingMap st)) st) ;;
      ret had
  end.

(** *** The caller of [publish] *)

(** Modelled from the spec: [publish] is protected and its caller, the
    request operation [send] of the base class [ClientProxy], is not among
    the sources.  For that caller an outcome is terminal when it carries an
    error or the disposal marker: no further message for the identifier will
    be delivered. *)
Definition outcome_terminal (o : Outcome) : bool :=
  truthy (o_isDisposed o) || truthy (o_err o).




(** *** Listeners *)

(** The listener [bindEvents] binds to [ERROR_EVENT]. *)
Definition error_listener (err : Value) : M unit :=
  code <- lift (get_prop err "code") ;;
  if negb (strict_eq_str code (ECONNREFUSED env)) then handleError err
  else ret tt.

(** The listener [bindEvents] binds to [CLOSE_EVENT]. *)
Definition close_listener : M unit := handleClose.

(** What a call [this.handleResponse(buffer)] does before it returns: the
    function is async, so it asks the deserializer, suspends at the [await]
    and returns its promise.  The routing map is not read and no callback is
    called yet, and nothing is thrown at the caller. *)
Definition handleResponse_called (buffer : Value) : M (Result InPacket) :=
  ret (deserialize env buffer).

(** The listener [connect] binds to [MESSAGE_EVENT],
    [buffer => this.handleResponse(buffer)]: it returns as soon as
    [handleResponse] has suspended.  What is left of [handleResponse] runs
    later (see [Microtask]). *)
Definition message_listener (buffer : Value) : M unit :=
  handleResponse_called buffer ;;
  ret tt.

Definition run_listener (ev : SocketEvent) : M unit :=
  match ev with
  | ErrorEv err => error_listener err
  | CloseEv => close_listener
  | MessageEv buffer => message_listener buffer
  end.

(** The socket [s] emits [ev]: the listeners bound for it on [s] when the
    event is emitted run in the order they were bound. *)
Definition emit (s : SocketId) (ev : SocketEvent) : M unit :=
  l <- gets listeners ;;
  for_each (filter (listens s (event_name ev)) l) (fun _ => run_listener ev).

End Methods.

(** ** Observations on a state *)

(** The connection state of the object: the three fields a teardown resets. *)
Definition connection_state (st : State) : bool * SocketRef * option PromiseId :=
  (isConnected st, socket st, connection st).

(** Appends several effects at once; the methods only ever append. *)
Definition record_all (es : list Effect) (st : State) : State :=
  mkState (port st) (host st) (tlsOptions st) (isConnected st) (socket st)
    (connection st) (routingMap st) (listeners st) (next_socket st)
    (next_promise st) (next_packet st) (effects st ++ es).

(** How many listeners are bound on socket [s] for the event [name]. *)
Definition bound (s : SocketId) (name : EventName) (st : State) : nat :=
  List.length (filter (listens s name) (listeners st)).

(** The outcome [{ err }] a callback receives when the connection closes. *)
Definition connection_closed : Outcome :=
  mkOutcome (new_Error "Connection closed") VUndefined VUndefined.

(** The callbacks of [l] that were called with outcome [o], in order. *)
Definition invocations (o : Outcome) (l : list Callback) : list Effect :=
  map (fun cb => Invoke cb o) l.

Definition is_SocketCreate (e : Effect) : bool :=
  match e with SocketCreate _ _ => true | _ => false end.

(** How many sockets were created so far. *)
Definition sockets_created (st : State) : nat :=
  List.length (filter is_SocketCreate (effects st)).

(** The states the methods keep the object in: every promise, socket and
    listener the object holds was allocated earlier, and the routing map holds
    a key once. *)
Definition wf (st : State) : Prop :=
  (forall p, connection st = Some p -> p < next_promise st) /\
  (forall s, socket st = SObj s -> s < next_socket st) /\
  (forall s ev, In (s, ev) (listeners st) -> s < next_socket st) /\
  NoDup (RoutingMap.keys (routingMap st)).

(** ** Closed forms of the states the methods lead to *)

(** The state [handleClose] leaves behind, in closed form. *)
Definition torn_down (st : State) : State :=
  mkState (port st) (host st) (tlsOptions st) false SNull None RoutingMap.empty
    (listeners st) (next_socket st) (next_promise st) (next_packet st)
    (effects st
       ++ invocations connection_closed (RoutingMap.values (routingMap st))).

(** The effects of a [connect] that starts a connecting cycle. *)
Definition connecting_effects (st : State) : list Effect :=
  SocketCreate (next_socket st) (truthy (tlsOptions st))
  :: (if truthy (tlsOptions st) then []
      else [SocketConnect (next_socket st) (port st) (host st)]).

Definition connecting (st : State) : State :=
  mkState (port st) (host st) (tlsOptions st) (isConnected st)
    (SObj (next_socket st)) (Some (next_promise st)) (routingMap st)
    ((listeners st ++ [(next_socket st, ERROR_EVENT)])
       ++ [(next_socket st, CLOSE_EVENT)])
    (S (next_socket st)) (S (next_promise st)) (next_packet st)
    (effects st ++ connecting_effects st).

(** The condition [isDisposed || err] of [handleResponse]: the message
    carries the disposal marker or an application error. *)
Definition terminal (pkt : InPacket) : bool :=
  truthy (in_isDisposed pkt) || truthy (in_err pkt).

(** The outcome [handleResponse] builds for a decoded message. *)
Definition delivered (pkt : InPacket) : Outcome :=
  mkOutcome (in_err pkt) (in_response pkt)
    (if terminal pkt then VBool true else VUndefined).

(** The packet [assignPacketId] builds in state [st]. *)
Definition assigned (env : Env) (partialPacket : ReadPacket) (st : State) : Packet :=
  mkPacket (randomStringGenerator env (next_packet st))
    (rp_pattern partialPacket) (rp_data partialPacket).

(** The state once [publish] has registered the callback. *)
Definition registered (env : Env) (partialPacket : ReadPacket) (cb : Callback)
  (st : State) : State :=
  set_routingMap
    (RoutingMap.set (pk_id (assigned env partialPacket st)) cb (routingMap st))
    (set_next_packet (S (next_packet st)) st).

Definition failure (err : Value) : Outcome := mkOutcome err VUndefined VUndefined.

(** A computation keeps the object well formed. *)
Definition preserves {A} (m : M A) : Prop :=
  forall st, wf st -> wf (snd (m st)).

(** Runs the monadic plumbing and the field assignments by value, so that
    each assignment is evaluated once, and leaves two states to be compared
    field by field. *)
Ltac run_state :=
  cbv beta iota zeta delta
    [ret throw bind gets modify lift try_catch invoke this_socket
     set_isConnected set_socket set_connection set_routingMap add_listener
     set_next_socket set_next_promise set_next_packet record record_all
     port host tlsOptions isConnected socket connection routingMap listeners
     next_socket next_promise next_packet effects fst snd negb].

(** ** A concrete environment

    A JSON-like setting used to run the methods on concrete inputs. *)
Module Demo.

(** Refuses a packet whose data is [undefined]. *)
Definition demo_serialize (p : Packet) : Result Value :=
  match pk_data p with
  | VUndefined => Throw (new_TypeError "cannot serialize")
  | d =>
      Ret (VObject ObjectClass
             [("id", VStr (pk_id p)); ("pattern", pk_pattern p); ("data", d)])
  end.

(** Reads the four fields of a message object; rejects anything whose [id]
    is not a string. *)
Definition demo_deserialize (buffer : Value) : Result InPacket :=
  match buffer with
  | VObject _ fields =>
      match lookup_field "id" fields with
      | VStr id =>
          Ret (mkInPacket (lookup_field "err" fields)
                 (lookup_field "response" fields)
                 (lookup_field "isDisposed" fields) id)
      | _ => Throw (new_Error "invalid message")
      end
  | _ => Throw (new_Error "invalid message")
  end.

Definition socket_ended (s : SocketId) (e : Effect) : bool :=
  match e with
  | SocketEnd s' => Nat.eqb s s'
  | _ => false
  end.

(** A socket accepts a message until it was asked to end. *)
Definition demo_sendMessage (history : list Effect) (s : SocketId) (payload : Value)
  : Result unit :=
  if existsb (socket_ended s) history then Throw (new_Error "Socket closed")
  else Ret tt.

(** Identifiers 1, 2, 3, ... in decimal. *)
Definition demo_id (n : nat) : PacketId :=
  NilEmpty.string_of_uint (Nat.to_uint (S n)).

Definition env : Env :=
  {| ECONNREFUSED := "ECONNREFUSED";
     TCP_DEFAULT_PORT := VNum 3000;
     TCP_DEFAULT_HOST := VStr "localhost";
     serialize := demo_serialize;
     deserialize := demo_deserialize;
     sendMessage := demo_sendMessage;
     randomStringGenerator := demo_id |}.

Definition options : Options :=
  {| opt_port := VUndefined; opt_host := VUndefined; opt_tlsOptions := VUndefined |}.

(** Runs [m] for its effect on the state. *)
Definition exec {A} (m : M A) (st : State) : State := snd (m st).

Definition request : ReadPacket := mkReadPacket (VStr "sum") (VNum 7).

Definition unserializable : ReadPacket := mkReadPacket (VStr "sum") VUndefined.

(** A fresh client. *)
Definition fresh : State := Eval vm_compute in constructor env options.

(** A client whose [connect] was called and whose stream then connected. *)
Definition connected : State :=
  Eval vm_compute in exec connect_tap (exec connect fresh).

(** The connected client after [publish] of [request] with callback 5:
    the request has identifier 1. *)
Definition pending : State :=
  Eval vm_compute in exec (publish env request 5) connected.

(** Two requests pending, callbacks 5 and 6. *)
Definition pending2 : State :=
  Eval vm_compute in exec (publish env request 6) pending.

(** A non-terminal message for request 1. *)
Definition reply_ok : Value :=
  VObject ObjectClass [("id", VStr "1"); ("response", VStr "ok")].

(** A message for request 1 carrying the disposal marker. *)
Definition reply_disposed : Value :=
  VObject ObjectClass
    [("id", VStr "1"); ("response", VStr "ok"); ("isDisposed", VBool true)].

(** A message for request 1 carrying an application error. *)
Definition reply_err : Value :=
  VObject ObjectClass [("id", VStr "1"); ("err", VStr "boom")].

(** A message for an identifier nobody waits for. *)
Definition reply_unknown : Value :=
  VObject ObjectClass [("id", VStr "99"); ("response", VStr "late")].

Definition refused : Value :=
  VObject ErrorClass
    [("message", VStr "connect ECONNREFUSED"); ("code", VStr "ECONNREFUSED")].

Definition reset : Value :=
  VObject ErrorClass
    [("message", VStr "read ECONNRESET"); ("code", VStr "ECONNRESET")].

End Demo.

(** ** One-way events *)

Section DispatchEvent.

Variable env : Env.

(** Modelled from the spec: [normalizePattern] belongs to the base class
    [ClientProxy], which is not among the sources; it normalizes the topic of
    the message. *)
Variable normalizePattern : Value -> Value.

(** [this.serializer.serialize] on a packet that carries no [id]; the
    serializer of [Env] is the same object on packets that carry one. *)
Variable serializeEvent : ReadPacket -> Result Value.

(** [dispatchEvent(packet)].  The function is async and awaits nothing: its
    body runs when it is called, and a throw stands for the rejection of the
    promise it returns. *)
Definition dispatchEvent (packet : ReadPacket) : M unit :=
  let pattern := normalizePattern (rp_pattern packet) in
  serializedPacket <-
    lift (serializeEvent (mkReadPacket pattern (rp_data packet))) ;;
  socket_sendMessage env serializedPacket.

End DispatchEvent.

(** ** Microtasks *)

(** What is left to run of an async call that has suspended. *)
Inductive Microtask : Type :=
| ResumeHandleResponse (buffer : Value).

(** The microtasks an event [ev] of socket [s] leaves behind: each message
    listener bound on [s] has called [handleResponse] on the message, and
    each of these calls has suspended. *)
Definition scheduled (s : SocketId) (ev : SocketEvent) (st : State)
  : list Microtask :=
  match ev with
  | MessageEv buffer =>
      repeat (ResumeHandleResponse buffer) (bound s MESSAGE_EVENT st)
  | _ => []
  end.

(** Running a microtask, in whatever state the client is by then: the rest
    of [handleResponse].  When it throws, the promise of the call rejects and
    nothing is thrown at anybody. *)
Definition run_microtask (env : Env) (t : Microtask) : M unit :=
  match t with
  | ResumeHandleResponse buffer =>
      try_catch (handleResponse env buffer) (fun _ => ret tt)
  end.

(** ** The states a client can be in *)

(** One thing that happens to the object: a method is called on it, a
    cancellation function is called, the stream reports that it is connected,
    or a socket emits an event. *)
Inductive step (env : Env) : State -> State -> Prop :=
| step_connect st : step env st (snd (connect st))
| step_connect_tap st : step env st (snd (connect_tap st))
| step_close st : step env st (snd (close st))
| step_handleClose st : step env st (snd (handleClose st))
| step_handleError err st : step env st (snd (handleError err st))
| step_handleResponse buffer st :
    step env st (snd (handleResponse env buffer st))
| step_publish partialPacket cb st :
    step env st (snd (publish env partialPacket cb st))
| step_teardown t st : step env st (snd (run_teardown t st))
| step_emit s ev st : step env st (snd (emit env s ev st)).

(** The states reached from a newly constructed client. *)
Inductive reachable (env : Env) : State -> Prop :=
| reachable_new options : reachable env (constructor env options)
| reachable_step st st' :
    reachable env st -> step env st st' -> reachable env st'.

(** The client holds a socket exactly when it holds a connection promise. *)
Definition socket_matches_connection (st : State) : Prop :=
  match socket st, connection st with
  | SObj _, Some _ => True
  | SUndefined, None => True
  | SNull, None => True
  | _, _ => False
  end.

(** ** More concrete inputs *)
Module Scenario.

(** Patterns are sent as they are. *)
Definition normalizePattern (pattern : Value) : Value := pattern.

(** Refuses an event whose data is [undefined]. *)
Definition serializeEvent (p : ReadPacket) : Result Value :=
  match rp_data p with
  | VUndefined => Throw (new_TypeError "cannot serialize")
  | d => Ret (VObject ObjectClass [("pattern", rp_pattern p); ("data", d)])
  end.

Definition event : ReadPacket := mkReadPacket (VStr "user.created") (VNum 42).

(** The client of [Demo.pending] after [close()]. *)
Definition closed : State := Eval vm_compute in Demo.exec close Demo.pending.

(** Something the deserializer rejects. *)
Definition garbage : Value := VStr "not a message".

(** What [Demo.request] is serialized to when it is given identifier [id]. *)
Definition payload (id : string) : Value :=
  VObject ObjectClass
    [("id", VStr id); ("pattern", VStr "sum"); ("data", VNum 7)].

(** [Demo.env] with an identifier source that always answers 1. *)
Definition repeating : Env :=
  {| ECONNREFUSED := ECONNREFUSED Demo.env;
     TCP_DEFAULT_PORT := TCP_DEFAULT_PORT Demo.env;
     TCP_DEFAULT_HOST := TCP_DEFAULT_HOST Demo.env;
     serialize := serialize Demo.env;
     deserialize := deserialize Demo.env;
     sendMessage := sendMessage Demo.env;
     randomStringGenerator := fun _ => "1" |}.

End Scenario.

(** * Properties *)

(** ** The routing map *)

Module RoutingMapFacts.
Import RoutingMap.

Lemma get_set_same (id : PacketId) (cb : Callback) (m : t) :
  get id (set id cb m) = Some cb.
Proof.
  induction m as [| [k c] rest IH]; simpl.
  - now rewrite String.eqb_refl.
  - destruct (String.eqb k id) eqn:E; simpl; rewrite E; auto.
Qed.

Lemma get_set_other (id id' : PacketId) (cb : Callback) (m : t) :
  id' <> id -> get id' (set id cb m) = get id' m.
Proof.
  intros Hne. induction m as [| [k c] rest IH]; simpl.
  - apply String.eqb_neq in Hne. rewrite String.eqb_sym in Hne. now rewrite Hne.
  - destruct (String.eqb k id) eqn:E; simpl.
    + apply String.eqb_eq in E. subst k.
      assert (String.eqb id id' = false) as ->; auto.
      apply String.eqb_neq. congruence.
    + now rewrite IH.
Qed.

Lemma get_delete_same (id : PacketId) (m : t) :
  get id (delete id m) = None.
Proof.
  unfold delete. induction m as [| [k c] rest IH]; simpl; auto.
  destruct (String.eqb k id) eqn:E; simpl; auto. now rewrite E.
Qed.

Lemma get_delete_other (id id' : PacketId) (m : t) :
  id' <> id -> get id' (delete id m) = get id' m.
Proof.
  intros Hne. unfold delete. induction m as [| [k c] rest IH]; simpl; auto.
  destruct (String.eqb k id) eqn:E; simpl.
  - apply String.eqb_eq in E. subst k.
    assert (String.eqb id id' = false) as ->; auto.
    apply String.eqb_neq. congruence.
  - now rewrite IH.
Qed.

Lemma has_delete (id : PacketId) (m : t) : has id (delete id m) = false.
Proof. unfold has. now rewrite get_delete_same. Qed.

Lemma get_None_not_key (id : PacketId) (m : t) :
  get id m = None <-> ~ In id (keys m).
Proof.
  induction m as [| [k c] rest IH]; simpl.
  - tauto.
  - destruct (String.eqb k id) eqn:E.
    + apply String.eqb_eq in E. split; [discriminate | tauto].
    + apply String.eqb_neq in E. tauto.
Qed.

Lemma keys_set (id : PacketId) (cb : Callback) (m : t) :
  keys (set id cb m) = if has id m then keys m else (keys m ++ [id])%list.
Proof.
  unfold has. induction m as [| [k c] rest IH]; simpl; auto.
  destruct (String.eqb k id) eqn:E; simpl; auto.
  rewrite IH. now destruct (get id rest).
Qed.

Lemma NoDup_keys_set (id : PacketId) (cb : Callback) (m : t) :
  NoDup (keys m) -> NoDup (keys (set id cb m)).
Proof.
  intros Hm. rewrite keys_set. unfold has.
  destruct (get id m) eqn:G; auto.
  apply get_None_not_key in G.
  apply NoDup_rev in Hm. rewrite <- (rev_involutive (keys m ++ [id])%list).
  apply NoDup_rev. rewrite rev_app_distr. simpl.
  constructor; auto. now rewrite <- in_rev.
Qed.

Lemma NoDup_keys_delete (id : PacketId) (m : t) :
  NoDup (keys m) -> NoDup (keys (delete id m)).
Proof.
  unfold delete, keys. induction m as [| [k c] rest IH]; simpl; auto.
  intros Hm. inversion Hm as [| ? ? Hk Hrest]; subst.
  destruct (String.eqb k id); simpl; auto.
  constructor; auto.
  intros Hin. apply Hk. apply in_map_iff in Hin.
  destruct Hin as [[k' c'] [<- Hin]]. apply filter_In in Hin.
  apply in_map_iff. exists (k', c'). tauto.
Qed.

Lemma size_zero (m : t) : size m = 0 -> m = empty.
Proof. destruct m; simpl; [reflexivity | discriminate]. Qed.

End RoutingMapFacts.

(** ** Effects are only appended *)

Lemma record_all_nil (st : State) : record_all [] st = st.
Proof. destruct st. unfold record_all. simpl. now rewrite app_nil_r. Qed.

Lemma record_all_app (es1 es2 : list Effect) (st : State) :
  record_all es2 (record_all es1 st) = record_all (es1 ++ es2) st.
Proof. unfold record_all. simpl. now rewrite app_assoc. Qed.

Lemma record_is_record_all (e : Effect) (st : State) :
  record e st = record_all [e] st.
Proof. reflexivity. Qed.

Lemma for_each_invoke (o : Outcome) (l : list Callback) (st : State) :
  for_each l (fun cb => invoke cb o) st = (Ret tt, record_all (invocations o l) st).
Proof.
  revert st. induction l as [| cb rest IH]; intros st; simpl.
  - unfold ret. now rewrite record_all_nil.
  - unfold bind, invoke, modify. rewrite IH, record_is_record_all, record_all_app.
    reflexivity.
Qed.

Lemma handleClose_run (st : State) : handleClose st = (Ret tt, torn_down st).
Proof.
  destruct st as [p h tls ic so co m ls ns np nk es].
  unfold handleClose, torn_down, bind, modify, gets.
  cbn -[for_each invoke Nat.ltb RoutingMap.values].
  destruct m as [| [k c] rest].
  - cbn. unfold ret. now rewrite app_nil_r.
  - cbn -[for_each invoke RoutingMap.values].
    rewrite (for_each_invoke connection_closed). reflexivity.
Qed.

Lemma torn_down_idempotent (st : State) : torn_down (torn_down st) = torn_down st.
Proof. unfold torn_down. simpl. now rewrite app_nil_r. Qed.

Lemma close_torn_down (st : State) : close (torn_down st) = (Ret tt, torn_down st).
Proof.
  unfold close, bind, gets. change (socket (torn_down st)) with SNull.
  unfold ret. cbv beta iota.
  rewrite handleClose_run. now rewrite torn_down_idempotent.
Qed.

(** ** Listeners run by [emit] *)

Lemma for_each_close_listener {A} (env : Env) (l : list A) (st : State) :
  for_each l (fun _ => run_listener env CloseEv) st =
  (Ret tt, match l with [] => st | _ :: _ => torn_down st end).
Proof.
  revert st. induction l as [| b rest IH]; intros st; simpl.
  - reflexivity.
  - unfold bind, close_listener. rewrite handleClose_run, IH.
    destruct rest; [reflexivity | now rewrite torn_down_idempotent].
Qed.

Lemma bound_listener_found (s : SocketId) (name : EventName) (st : State) :
  In (s, name) (listeners st) ->
  exists b rest, filter (listens s name) (listeners st) = b :: rest.
Proof.
  intros Hin.
  assert (In (s, name) (filter (listens s name) (listeners st))) as Hf.
  { apply filter_In. split; auto. unfold listens. simpl.
    rewrite Nat.eqb_refl. now destruct name. }
  destruct (filter (listens s name) (listeners st)) as [| b rest];
    [inversion Hf | exists b, rest; reflexivity].
Qed.

Lemma emit_run (env : Env) (s : SocketId) (ev : SocketEvent) (st : State) :
  emit env s ev st =
  for_each (filter (listens s (event_name ev)) (listeners st))
    (fun _ => run_listener env ev) st.
Proof. reflexivity. Qed.

Lemma emit_close_run (env : Env) (s : SocketId) (st : State) :
  In (s, CLOSE_EVENT) (listeners st) ->
  emit env s CloseEv st = (Ret tt, torn_down st).
Proof.
  intros Hin. rewrite emit_run.
  destruct (bound_listener_found s CLOSE_EVENT st Hin) as (b & rest & F).
  simpl event_name. rewrite F.
  now rewrite for_each_close_listener.
Qed.

Lemma error_listener_run (env : Env) (err : Value) (st : State) :
  error_listener env err st =
  match get_prop err "code" with
  | Throw e => (Throw e, st)
  | Ret code =>
      if strict_eq_str code (ECONNREFUSED env) then (Ret tt, st)
      else (Ret tt, record (LogError err) st)
  end.
Proof.
  unfold error_listener, bind, lift.
  destruct (get_prop err "code") as [code | e]; [| reflexivity].
  destruct (strict_eq_str code (ECONNREFUSED env)); reflexivity.
Qed.

Lemma for_each_error_listener {A} (env : Env) (err : Value) (l : list A)
  (st : State) :
  for_each l (fun _ => run_listener env (ErrorEv err)) st =
  match get_prop err "code" with
  | Throw e => match l with [] => (Ret tt, st) | _ :: _ => (Throw e, st) end
  | Ret code =>
      if strict_eq_str code (ECONNREFUSED env) then (Ret tt, st)
      else (Ret tt, record_all (repeat (LogError err) (List.length l)) st)
  end.
Proof.
  revert st. induction l as [| b rest IH]; intros st; simpl.
  - destruct (get_prop err "code") as [code | e]; [| reflexivity].
    destruct (strict_eq_str code (ECONNREFUSED env)); [reflexivity |].
    now rewrite record_all_nil.
  - unfold bind, run_listener. rewrite error_listener_run.
    destruct (get_prop err "code") as [code | e]; [| reflexivity].
    destruct (strict_eq_str code (ECONNREFUSED env)); rewrite IH; [reflexivity |].
    now rewrite record_is_record_all, record_all_app.
Qed.

(** ** [connect] in closed form *)

Lemma connect_set_run (st : State) (p : PromiseId) :
  connection st = Some p -> connect st = (Ret p, st).
Proof. intros H. unfold connect, bind, gets. now rewrite H. Qed.

Lemma connect_unset_run (st : State) :
  connection st = None -> connect st = (Ret (next_promise st), connecting st).
Proof.
  destruct st as [p h tls ic so co m ls ns np nk es].
  cbv [connection]. intros ->.
  unfold connect, connecting, connecting_effects, createSocket, bindEvents,
    socket_on.
  run_state.
  destruct (truthy tls); run_state; [reflexivity |].
  do 2 f_equal. now rewrite <- app_assoc.
Qed.

Lemma sockets_created_connecting (st : State) :
  sockets_created (connecting st) = S (sockets_created st).
Proof.
  unfold sockets_created, connecting, connecting_effects. simpl.
  rewrite filter_app, length_app. simpl.
  destruct (truthy (tlsOptions st)); simpl; lia.
Qed.

Lemma get_Some_in_values (id : PacketId) (cb : Callback) (m : RoutingMap.t) :
  RoutingMap.get id m = Some cb -> In cb (RoutingMap.values m).
Proof.
  induction m as [| [k c] rest IH]; simpl; [discriminate |].
  destruct (String.eqb k id); [intros [= ->]; auto | auto].
Qed.

(** ** [handleResponse] and [publish] in closed form *)

Lemma handleResponse_run (env : Env) (buffer : Value) (st : State) :
  handleResponse env buffer st =
  match deserialize env buffer with
  | Throw e => (Throw e, st)
  | Ret pkt =>
      match RoutingMap.get (in_id pkt) (routingMap st) with
      | None => (Ret tt, st)
      | Some cb => (Ret tt, record (Invoke cb (delivered pkt)) st)
      end
  end.
Proof.
  unfold handleResponse, bind, lift, gets, delivered, terminal.
  destruct (deserialize env buffer) as [pkt | e]; [| reflexivity].
  destruct (RoutingMap.get (in_id pkt) (routingMap st)) as [cb |];
    [| reflexivity].
  destruct (truthy (in_isDisposed pkt) || truthy (in_err pkt)); reflexivity.
Qed.

Lemma socket_sendMessage_run (env : Env) (payload : Value) (st : State) :
  socket_sendMessage env payload st =
  match socket st with
  | SObj s =>
      match sendMessage env (effects st) s payload with
      | Ret _ => (Ret tt, record (SocketSend s payload) st)
      | Throw e => (Throw e, st)
      end
  | _ => (Throw (new_TypeError "Cannot read properties"), st)
  end.
Proof.
  unfold socket_sendMessage, this_socket, bind, gets, lift, modify.
  destruct (socket st); reflexivity.
Qed.

Lemma socket_sendMessage_registered (env : Env) (payload : Value)
  (partialPacket : ReadPacket) (cb : Callback) (st : State) :
  socket_sendMessage env payload (registered env partialPacket cb st) =
  (fst (socket_sendMessage env payload st),
   match fst (socket_sendMessage env payload st), socket st with
   | Ret _, SObj s =>
       record (SocketSend s payload) (registered env partialPacket cb st)
   | _, _ => registered env partialPacket cb st
   end).
Proof.
  rewrite !socket_sendMessage_run. simpl.
  destruct (socket st); try reflexivity.
  destruct (sendMessage env (effects st) s payload); reflexivity.
Qed.

Lemma publish_run (env : Env) (partialPacket : ReadPacket) (cb : Callback)
  (st : State) :
  publish env partialPacket cb st =
  match serialize env (assigned env partialPacket st) with
  | Throw e =>
      (Ret None,
       record (Invoke cb (failure e)) (set_next_packet (S (next_packet st)) st))
  | Ret payload =>
      match socket_sendMessage env payload (registered env partialPacket cb st) with
      | (Ret _, st') =>
          (Ret (Some (Unsubscribe (pk_id (assigned env partialPacket st)))), st')
      | (Throw e, st') => (Ret None, record (Invoke cb (failure e)) st')
      end
  end.
Proof.
  unfold publish, try_catch, assignPacketId, bind, gets, modify, lift, ret.
  fold (assigned env partialPacket st).
  destruct (serialize env (assigned env partialPacket st)) as [payload | e];
    [| reflexivity].
  change (set_routingMap
            (RoutingMap.set (pk_id (assigned env partialPacket st)) cb
               (routingMap (set_next_packet (S (next_packet st)) st)))
            (set_next_packet (S (next_packet st)) st))
    with (registered env partialPacket cb st).
  destruct (socket_sendMessage env payload (registered env partialPacket cb st))
    as [[[] | e] st']; reflexivity.
Qed.

Lemma outcome_terminal_delivered (pkt : InPacket) :
  outcome_terminal (delivered pkt) = terminal pkt.
Proof.
  unfold outcome_terminal, delivered, terminal.
  destruct (truthy (in_isDisposed pkt)) eqn:Hd, (truthy (in_err pkt)) eqn:He;
    simpl; rewrite ?He; reflexivity.
Qed.


(** ** The invariant [wf] *)

Lemma preserves_ret {A} (a : A) : preserves (ret a).
Proof. intros st H. exact H. Qed.

Lemma preserves_bind {A B} (m : M A) (k : A -> M B) :
  preserves m -> (forall a, preserves (k a)) -> preserves (bind m k).
Proof.
  intros Hm Hk st H. unfold bind. specialize (Hm st H).
  destruct (m st) as [[a | e] st1]; simpl in *; [now apply Hk | exact Hm].
Qed.

Lemma preserves_try_catch {A} (m : M A) (h : Value -> M A) :
  preserves m -> (forall e, preserves (h e)) -> preserves (try_catch m h).
Proof.
  intros Hm Hh st H. unfold try_catch. specialize (Hm st H).
  destruct (m st) as [[a | e] st1]; simpl in *; [exact Hm | now apply Hh].
Qed.

Lemma preserves_for_each {A} (l : list A) (f : A -> M unit) :
  (forall a, preserves (f a)) -> preserves (for_each l f).
Proof.
  intros Hf. induction l as [| a rest IH]; simpl.
  - apply preserves_ret.
  - apply preserves_bind; auto.
Qed.

Lemma wf_record_all (es : list Effect) (st : State) : wf st -> wf (record_all es st).
Proof. intros H. exact H. Qed.

Lemma wf_record (e : Effect) (st : State) : wf st -> wf (record e st).
Proof. intros H. exact H. Qed.

Lemma wf_constructor (env : Env) (options : Options) : wf (constructor env options).
Proof.
  unfold wf. simpl. repeat split; try discriminate; try tauto. constructor.
Qed.

Lemma wf_torn_down (st : State) : wf st -> wf (torn_down st).
Proof.
  intros (_ & _ & Hl & _). unfold wf. simpl.
  repeat split; try discriminate; auto. constructor.
Qed.

Lemma wf_connecting (st : State) : wf st -> wf (connecting st).
Proof.
  intros (_ & _ & Hl & Hm). unfold wf. simpl. repeat split; auto.
  - intros p [= <-]. lia.
  - intros s [= <-]. lia.
  - intros s ev Hin. apply in_app_or in Hin. destruct Hin as [Hin | Hin].
    + apply in_app_or in Hin. destruct Hin as [Hin | Hin].
      * apply Hl in Hin. lia.
      * destruct Hin as [[= <- <-] | []]. lia.
    + destruct Hin as [[= <- <-] | []]. lia.
Qed.

Lemma wf_registered (env : Env) (partialPacket : ReadPacket) (cb : Callback)
  (st : State) : wf st -> wf (registered env partialPacket cb st).
Proof.
  intros (Hp & Hs & Hl & Hm). unfold wf. simpl. repeat split; auto.
  now apply RoutingMapFacts.NoDup_keys_set.
Qed.

Lemma preserves_handleClose : preserves handleClose.
Proof. intros st H. rewrite handleClose_run. now apply wf_torn_down. Qed.

Lemma preserves_close : preserves close.
Proof.
  unfold close. apply preserves_bind; [intros st H; exact H |].
  intros a. apply preserves_bind; [| intros; apply preserves_handleClose].
  destruct a; intros st H; exact H.
Qed.

Lemma preserves_connect : preserves connect.
Proof.
  intros st H. destruct (connection st) as [p |] eqn:Hc.
  - now rewrite (connect_set_run st p Hc).
  - rewrite (connect_unset_run st Hc). now apply wf_connecting.
Qed.

Lemma preserves_connect_tap : preserves connect_tap.
Proof.
  intros st. destruct st as [p h tls ic so co m ls ns np nk es].
  unfold wf, connect_tap, socket_on. run_state.
  intros (Hp & Hs & Hl & Hm).
  destruct so as [| | s]; run_state; repeat split; auto.
  intros s' ev Hin. apply in_app_or in Hin. destruct Hin as [Hin | Hin].
  - eauto.
  - destruct Hin as [[= <- <-] | []]. auto.
Qed.

Lemma preserves_handleResponse (env : Env) (buffer : Value) :
  preserves (handleResponse env buffer).
Proof.
  intros st H. rewrite handleResponse_run.
  destruct (deserialize env buffer) as [pkt | e]; [| exact H].
  destruct (RoutingMap.get (in_id pkt) (routingMap st)); exact H.
Qed.

Lemma preserves_publish (env : Env) (partialPacket : ReadPacket) (cb : Callback) :
  preserves (publish env partialPacket cb).
Proof.
  intros st H. rewrite publish_run.
  destruct (serialize env (assigned env partialPacket st)) as [payload | e].
  - rewrite socket_sendMessage_registered.
    pose proof (wf_registered env partialPacket cb st H) as Hr.
    destruct (fst (socket_sendMessage env payload st)) as [[] | e]; simpl.
    + destruct (socket st); exact Hr.
    + exact Hr.
  - simpl. destruct H as (Hp & Hs & Hl & Hm). repeat split; auto.
Qed.

Lemma preserves_run_teardown (t : Teardown) : preserves (run_teardown t).
Proof.
  destruct t as [id]. intros st (Hp & Hs & Hl & Hm). simpl.
  repeat split; auto. simpl. now apply RoutingMapFacts.NoDup_keys_delete.
Qed.

Lemma preserves_run_listener (env : Env) (ev : SocketEvent) :
  preserves (run_listener env ev).
Proof.
  destruct ev as [err | | buffer]; simpl.
  - unfold error_listener. apply preserves_bind; [intros st H; exact H |].
    intros code. destruct (negb _); intros st H; exact H.
  - apply preserves_handleClose.
  - intros st H. exact H.
Qed.

Lemma preserves_emit (env : Env) (s : SocketId) (ev : SocketEvent) :
  preserves (emit env s ev).
Proof.
  unfold emit. apply preserves_bind; [intros st H; exact H |].
  intros l. apply preserves_for_each. intros _. apply preserves_run_listener.
Qed.

(** ** Claims *)

(** C1.  When the socket emits a close event on which [bindEvents] bound its
    listener, [handleClose] runs: [isConnected] becomes false, the socket
    reference and the connection promise are discarded, every callback that
    is in the routing map at that instant is called with the
    "Connection closed" failure, and the routing map is left with size zero.
    A [connect()] after it starts a fresh cycle: it creates a new socket and
    returns a new promise, not the one held before the close. *)
Theorem close_event_teardown (env : Env) (st : State) (s : SocketId) :
  wf st ->
  In (s, CLOSE_EVENT) (listeners st) ->
  let st' := snd (emit env s CloseEv st) in
  emit env s CloseEv st = handleClose st /\
  fst (emit env s CloseEv st) = Ret tt /\
  isConnected st' = false /\
  socket st' = SNull /\
  connection st' = None /\
  effects st' =
    (effects st
       ++ invocations connection_closed (RoutingMap.values (routingMap st)))%list /\
  (forall id cb,
      RoutingMap.get id (routingMap st) = Some cb ->
      In (Invoke cb connection_closed) (effects st')) /\
  RoutingMap.size (routingMap st') = 0 /\
  exists p st'',
    connect st' = (Ret p, st'') /\
    connection st'' = Some p /\
    (forall q, connection st = Some q -> p <> q) /\
    sockets_created st'' = S (sockets_created st') /\
    exists s_new,
      socket st'' = SObj s_new /\
      In (SocketCreate s_new (truthy (tlsOptions st))) (effects st'') /\
      (forall s_old, socket st = SObj s_old -> s_new <> s_old).
Proof.
  intros (Hp & Hs & _ & _) Hin st'. subst st'.
  rewrite (emit_close_run env s st Hin), handleClose_run. simpl.
  repeat split.
  - intros id cb Hget. apply in_or_app. right.
    unfold invocations.
    apply (in_map (fun c : Callback => Invoke c connection_closed)).
    eapply get_Some_in_values; eauto.
  - exists (next_promise st), (connecting (torn_down st)).
    rewrite connect_unset_run by reflexivity. simpl.
    repeat split.
    + intros q Hq. apply Hp in Hq. lia.
    + apply sockets_created_connecting.
    + exists (next_socket st). repeat split.
      * apply in_or_app. right. left. reflexivity.
      * intros s_old Hold. apply Hs in Hold. lia.
Qed.

Lemma close_event_teardown_witness :
  wf Demo.pending2 /\
  In (0, CLOSE_EVENT) (listeners Demo.pending2) /\
  effects (snd (emit Demo.env 0 CloseEv Demo.pending2)) =
    (effects Demo.pending2
       ++ [Invoke 5 connection_closed; Invoke 6 connection_closed])%list /\
  RoutingMap.size (routingMap (snd (emit Demo.env 0 CloseEv Demo.pending2))) = 0.
Proof.
  assert (wf Demo.pending2) as Hwf.
  { unfold wf. vm_compute. repeat split.
    - intros p [= <-]. lia.
    - intros s [= <-]. lia.
    - intros s ev [[= <- <-] | [[= <- <-] | [[= <- <-] | []]]]; lia.
    - repeat constructor; simpl; intuition discriminate. }
  assert (In (0, CLOSE_EVENT) (listeners Demo.pending2)) as Hin.
  { vm_compute. right. left. reflexivity. }
  split; [exact Hwf |]. split; [exact Hin |].
  destruct (close_event_teardown Demo.env Demo.pending2 0 Hwf Hin)
    as (_ & _ & _ & _ & _ & He & _ & Hz & _).
  split; [exact He | exact Hz].
Defined.

(** C2.  [connect()] is idempotent while a connection attempt is outstanding
    or established: when the connection promise is set, [connect()] returns
    that same promise and changes nothing, so no second socket is created.
    The socket is created, and the stream-level connect issued, only by a
    call that finds the promise cleared; a call right after it again returns
    the promise that call made. *)
Theorem connect_idempotent (st : State) :
  (forall p, connection st = Some p -> connect st = (Ret p, st)) /\
  (connection st = None ->
   exists p st',
     connect st = (Ret p, st') /\
     connection st' = Some p /\
     socket st' = SObj (next_socket st) /\
     effects st' = (effects st ++ connecting_effects st)%list /\
     sockets_created st' = S (sockets_created st) /\
     connect st' = (Ret p, st')) /\
  (effects (snd (connect st)) <> effects st -> connection st = None).
Proof.
  split; [| split].
  - intros p Hp. now apply connect_set_run.
  - intros Hc. exists (next_promise st), (connecting st).
    rewrite (connect_unset_run st Hc).
    split; [reflexivity |]. split; [reflexivity |]. split; [reflexivity |].
    split; [reflexivity |]. split; [apply sockets_created_connecting |].
    now apply connect_set_run.
  - intros Hne. destruct (connection st) as [p |] eqn:Hc; [| reflexivity].
    rewrite (connect_set_run st p Hc) in Hne. now elim Hne.
Qed.

Lemma connect_idempotent_witness :
  (connection Demo.connected = Some 0 /\
   connect Demo.connected = (Ret 0, Demo.connected)) /\
  (connection Demo.fresh = None /\
   exists p st',
     connect Demo.fresh = (Ret p, st') /\
     connection st' = Some p /\
     socket st' = SObj (next_socket Demo.fresh) /\
     effects st' = (effects Demo.fresh ++ connecting_effects Demo.fresh)%list /\
     sockets_created st' = S (sockets_created Demo.fresh) /\
     connect st' = (Ret p, st')).
Proof.
  split.
  - split; [reflexivity |].
    apply (proj1 (connect_idempotent Demo.connected) 0). reflexivity.
  - split; [reflexivity |].
    apply (proj1 (proj2 (connect_idempotent Demo.fresh))). reflexivity.
Defined.

(** C3.  Outcome delivery rule of [handleResponse].  For a decoded message
    whose id has a registered callback: if the message carries an application
    error or the disposal marker (the test [isDisposed || err] of the source,
    by JavaScript truthiness), the callback is called exactly once with
    [{err, response, isDisposed: true}]; otherwise it is called exactly once
    with [{err, response}], and the entry of that id stays in the routing
    map. *)
Theorem handleResponse_outcome_delivery (env : Env) (st : State) (buffer : Value)
  (pkt : InPacket) (cb : Callback) :
  deserialize env buffer = Ret pkt ->
  RoutingMap.get (in_id pkt) (routingMap st) = Some cb ->
  let st' := snd (handleResponse env buffer st) in
  fst (handleResponse env buffer st) = Ret tt /\
  (terminal pkt = true ->
   effects st' =
     (effects st
        ++ [Invoke cb (mkOutcome (in_err pkt) (in_response pkt) (VBool true))])%list) /\
  (terminal pkt = false ->
   effects st' =
     (effects st
        ++ [Invoke cb (mkOutcome (in_err pkt) (in_response pkt) VUndefined)])%list /\
   routingMap st' = routingMap st /\
   RoutingMap.get (in_id pkt) (routingMap st') = Some cb).
Proof.
  intros Hd Hg st'. subst st'. rewrite handleResponse_run, Hd, Hg.
  unfold delivered. fold (terminal pkt). simpl.
  split; [reflexivity |]. split; intros ->; auto.
Qed.

Lemma handleResponse_outcome_delivery_witness :
  let disposed := mkInPacket VUndefined (VStr "ok") (VBool true) "1" in
  let plain := mkInPacket VUndefined (VStr "ok") VUndefined "1" in
  effects (snd (handleResponse Demo.env Demo.reply_disposed Demo.pending)) =
    (effects Demo.pending
       ++ [Invoke 5 (mkOutcome VUndefined (VStr "ok") (VBool true))])%list /\
  effects (snd (handleResponse Demo.env Demo.reply_ok Demo.pending)) =
    (effects Demo.pending
       ++ [Invoke 5 (mkOutcome VUndefined (VStr "ok") VUndefined)])%list /\
  RoutingMap.get "1"
    (routingMap (snd (handleResponse Demo.env Demo.reply_ok Demo.pending))) =
    Some 5.
Proof.
  intros disposed plain.
  pose proof (handleResponse_outcome_delivery Demo.env Demo.pending
                Demo.reply_disposed disposed 5 eq_refl eq_refl) as (_ & Ht & _).
  pose proof (handleResponse_outcome_delivery Demo.env Demo.pending
                Demo.reply_ok plain 5 eq_refl eq_refl) as (_ & _ & Hn).
  split; [exact (Ht eq_refl) |].
  destruct (Hn eq_refl) as (He & _ & Hg). split; [exact He | exact Hg].
Defined.



(** C5.  [publish] never raises to its caller.  When the serializer throws,
    the callback of that send attempt is called, once and before [publish]
    returns, with the failure as its outcome; [publish] returns [undefined];
    the routing map is as it was, so no other pending entry is touched, and
    so are [isConnected], the socket and the connection promise. *)
Theorem publish_serialization_failure (env : Env) (st : State)
  (partialPacket : ReadPacket) (cb : Callback) (e : Value) :
  serialize env (assigned env partialPacket st) = Throw e ->
  let st' := snd (publish env partialPacket cb st) in
  fst (publish env partialPacket cb st) = Ret None /\
  effects st' = (effects st ++ [Invoke cb (failure e)])%list /\
  routingMap st' = routingMap st /\
  connection_state st' = connection_state st /\
  listeners st' = listeners st /\
  (forall st0, exists t st1, publish env partialPacket cb st0 = (Ret t, st1)) /\
  (forall st0 st1,
      publish env partialPacket cb st0 = (Ret None, st1) ->
      exists e0, effects st1 = (effects st0 ++ [Invoke cb (failure e0)])%list).
Proof.
  intros He st'. subst st'. rewrite publish_run, He. simpl.
  repeat split.
  - intros st0. rewrite publish_run.
    destruct (serialize env (assigned env partialPacket st0)) as [payload | e0];
      [| eauto].
    destruct (socket_sendMessage env payload (registered env partialPacket cb st0))
      as [[[] | e1] st1]; eauto.
  - intros st0 st1. rewrite publish_run.
    destruct (serialize env (assigned env partialPacket st0)) as [payload | e0].
    + rewrite socket_sendMessage_registered.
      destruct (fst (socket_sendMessage env payload st0)) as [[] | e1];
        [discriminate |].
      intros [= <-]. exists e1. reflexivity.
    + intros [= <-]. exists e0. reflexivity.
Qed.

Lemma publish_serialization_failure_witness :
  let st' := snd (publish Demo.env Demo.unserializable 9 Demo.pending) in
  fst (publish Demo.env Demo.unserializable 9 Demo.pending) = Ret None /\
  effects st' =
    (effects Demo.pending
       ++ [Invoke 9 (failure (new_TypeError "cannot serialize"))])%list /\
  routingMap st' = routingMap Demo.pending /\
  connection_state st' = connection_state Demo.pending.
Proof.
  pose proof (publish_serialization_failure Demo.env Demo.pending
                Demo.unserializable 9 (new_TypeError "cannot serialize") eq_refl)
    as (Hr & He & Hm & Hc & _).
  repeat split; assumption.
Defined.

(** C6, as the code has it.  An error event changes none of [isConnected],
    the socket reference, the connection promise, the routing map and the
    bound listeners.  When its code is the connection-refused code the event
    has no effect at all: it is neither logged nor passed on.  Any other
    error is handed to [handleError], which logs it, once per error listener
    bound on the socket. *)
Theorem error_event_frame (env : Env) (st : State) (s : SocketId) (err : Value) :
  let st' := snd (emit env s (ErrorEv err) st) in
  connection_state st' = connection_state st /\
  routingMap st' = routingMap st /\
  listeners st' = listeners st /\
  (forall code,
      get_prop err "code" = Ret code ->
      strict_eq_str code (ECONNREFUSED env) = true ->
      emit env s (ErrorEv err) st = (Ret tt, st)) /\
  (forall code,
      get_prop err "code" = Ret code ->
      strict_eq_str code (ECONNREFUSED env) = false ->
      fst (emit env s (ErrorEv err) st) = Ret tt /\
      effects st' =
        (effects st ++ repeat (LogError err) (bound s ERROR_EVENT st))%list /\
      (In (s, ERROR_EVENT) (listeners st) -> In (LogError err) (effects st'))).
Proof.
  intros st'. subst st'. rewrite emit_run. simpl event_name.
  pose proof (bound_listener_found s ERROR_EVENT st) as Hb.
  unfold bound.
  set (l := filter (listens s ERROR_EVENT) (listeners st)) in *.
  rewrite for_each_error_listener.
  destruct (get_prop err "code") as [code | e].
  - destruct (strict_eq_str code (ECONNREFUSED env)) eqn:Hc; simpl;
      (do 3 (split; [reflexivity |])); split.
    + intros c _ _. reflexivity.
    + intros c [= <-] Hc'. congruence.
    + intros c [= <-] Hc'. congruence.
    + intros c _ _. split; [reflexivity |]. split; [reflexivity |].
      intros Hin. destruct (Hb Hin) as (b & rest & E). rewrite E. simpl.
      apply in_or_app. right. left. reflexivity.
  - destruct l; simpl; (do 3 (split; [reflexivity |])); split;
      intros c Hc; discriminate.
Qed.

Lemma error_event_frame_witness :
  emit Demo.env 0 (ErrorEv Demo.refused) Demo.pending = (Ret tt, Demo.pending) /\
  effects (snd (emit Demo.env 0 (ErrorEv Demo.reset) Demo.pending)) =
    (effects Demo.pending ++ [LogError Demo.reset])%list /\
  In (LogError Demo.reset)
    (effects (snd (emit Demo.env 0 (ErrorEv Demo.reset) Demo.pending))).
Proof.
  pose proof (error_event_frame Demo.env Demo.pending 0 Demo.refused)
    as (_ & _ & _ & Hrefused & _).
  pose proof (error_event_frame Demo.env Demo.pending 0 Demo.reset)
    as (_ & _ & _ & _ & Hother).
  split; [exact (Hrefused (VStr "ECONNREFUSED") eq_refl eq_refl) |].
  destruct (Hother (VStr "ECONNRESET") eq_refl eq_refl) as (_ & He & Hin).
  split; [exact He |].
  apply Hin. vm_compute. left. reflexivity.
Defined.

(** C6, as stated, fails.  The claim has a connection-refused error logged at
    this layer; on a connected client with a request pending, an error event
    with code ECONNREFUSED leaves the list of effects as it was, so nothing
    is logged. *)
Lemma refused_error_is_not_logged :
  let st' := snd (emit Demo.env 0 (ErrorEv Demo.refused) Demo.pending) in
  In (0, ERROR_EVENT) (listeners Demo.pending) /\
  get_prop Demo.refused "code" = Ret (VStr (ECONNREFUSED Demo.env)) /\
  effects st' = effects Demo.pending /\
  ~ In (LogError Demo.refused) (effects st').
Proof.
  vm_compute. repeat split; [left; reflexivity |].
  intros [H | [H | [H | []]]]; discriminate.
Qed.

(** C7.  A decoded message whose identifier has no callback in the routing
    map: [handleResponse] returns without calling any callback, raises
    nothing, and leaves the whole state, the routing map and the connection
    state included, as it was; so does the message listener that runs it. *)
Theorem handleResponse_unknown_id (env : Env) (st : State) (buffer : Value)
  (pkt : InPacket) :
  deserialize env buffer = Ret pkt ->
  RoutingMap.get (in_id pkt) (routingMap st) = None ->
  handleResponse env buffer st = (Ret tt, st) /\
  message_listener env buffer st = (Ret tt, st).
Proof.
  intros Hd Hg.
  assert (handleResponse env buffer st = (Ret tt, st)) as Hrun
      by now rewrite handleResponse_run, Hd, Hg.
  split; [exact Hrun |]. reflexivity.
Qed.

Lemma handleResponse_unknown_id_witness :
  handleResponse Demo.env Demo.reply_unknown Demo.pending = (Ret tt, Demo.pending) /\
  message_listener Demo.env Demo.reply_unknown Demo.pending = (Ret tt, Demo.pending).
Proof.
  apply (handleResponse_unknown_id Demo.env Demo.pending Demo.reply_unknown
           (mkInPacket VUndefined (VStr "late") VUndefined "99"));
    reflexivity.
Defined.

(** C8.  When [source$] ends without having emitted a value, so that
    [lastValueFrom] rejects with an [EmptyError], the connection promise
    resolves with no value.  A rejection with an [EmptyError] resolves this
    way, any other rejection is thrown again and rejects the connection
    promise with the same cause; a last value resolves it. *)
Theorem connection_benign_empty_completion :
  connection_settles CompletedEmpty = Resolved VUndefined /\
  (forall e,
      connection_settles (Errored e) =
      if instanceof_EmptyError e then Resolved VUndefined else Rejected e) /\
  (forall v, connection_settles (CompletedWith v) = Resolved v).
Proof.
  split; [reflexivity |]. split; [| reflexivity].
  intros e. unfold connection_settles, promise_catch, connect_catch. simpl.
  destruct (instanceof_EmptyError e); reflexivity.
Qed.

(** C9.  [close()] asks the socket to end only when there is a socket, and in
    every case then runs [handleClose], the teardown of a close event.  After
    it the socket is null, the connection undefined, [isConnected] false and
    the routing map empty; a second [close()] calls no callback, has no
    effect and leaves the state as it was. *)
Theorem close_idempotent (st : State) :
  let st1 := snd (close st) in
  close st =
    handleClose
      (match socket st with SObj i => record (SocketEnd i) st | _ => st end) /\
  effects st1 =
    (effects st
       ++ (match socket st with SObj i => [SocketEnd i] | _ => [] end)
       ++ invocations connection_closed (RoutingMap.values (routingMap st)))%list /\
  isConnected st1 = false /\
  socket st1 = SNull /\
  connection st1 = None /\
  routingMap st1 = RoutingMap.empty /\
  close st1 = (Ret tt, st1).
Proof.
  intros st1. subst st1.
  assert (close st =
          handleClose
            (match socket st with SObj i => record (SocketEnd i) st | _ => st end))
    as Hrun.
  { unfold close, bind, gets, modify. destruct (socket st); reflexivity. }
  rewrite Hrun, handleClose_run. split; [reflexivity |].
  cbv [snd]. split.
  - destruct (socket st); simpl; [reflexivity | reflexivity |].
    now rewrite <- app_assoc.
  - do 4 (split; [reflexivity |]). apply close_torn_down.
Qed.

(** C10.  When the serializer succeeds and [socket.sendMessage] throws, be it
    because there is no socket or because the socket refuses the write,
    [publish] calls the callback with that failure and returns [undefined],
    not a cancellation function; the callback stays registered under the
    assigned identifier.  A later teardown empties the routing map. *)
Theorem publish_send_failure (env : Env) (st : State)
  (partialPacket : ReadPacket) (cb : Callback) (payload e : Value) :
  serialize env (assigned env partialPacket st) = Ret payload ->
  fst (socket_sendMessage env payload st) = Throw e ->
  let id := pk_id (assigned env partialPacket st) in
  let st' := snd (publish env partialPacket cb st) in
  fst (publish env partialPacket cb st) = Ret None /\
  effects st' = (effects st ++ [Invoke cb (failure e)])%list /\
  routingMap st' = RoutingMap.set id cb (routingMap st) /\
  RoutingMap.get id (routingMap st') = Some cb /\
  RoutingMap.size (routingMap (snd (handleClose st'))) = 0.
Proof.
  intros Hs Hsend id st'. subst id st'.
  rewrite publish_run, Hs, socket_sendMessage_registered, Hsend.
  cbv beta iota delta [fst snd].
  do 3 (split; [reflexivity |]). split.
  - change (routingMap
              (record (Invoke cb (failure e)) (registered env partialPacket cb st)))
      with (RoutingMap.set (pk_id (assigned env partialPacket st)) cb
              (routingMap st)).
    apply RoutingMapFacts.get_set_same.
  - rewrite handleClose_run. reflexivity.
Qed.

Lemma publish_send_failure_witness :
  let closed := Demo.exec close Demo.pending in
  let st' := snd (publish Demo.env Demo.request 9 closed) in
  fst (publish Demo.env Demo.request 9 closed) = Ret None /\
  effects st' =
    (effects closed
       ++ [Invoke 9 (failure (new_TypeError "Cannot read properties"))])%list /\
  RoutingMap.get "2" (routingMap st') = Some 9.
Proof.
  intros closed.
  pose proof (publish_send_failure Demo.env closed Demo.request 9
                (VObject ObjectClass
                   [("id", VStr "2"); ("pattern", VStr "sum"); ("data", VNum 7)])
                (new_TypeError "Cannot read properties") eq_refl eq_refl)
    as (Hr & He & _ & Hg & _).
  repeat split; assumption.
Defined.

(** * Further properties *)

(** ** More on the routing map *)

Module RoutingMapMore.
Import RoutingMap.

Lemma delete_set_fresh (id : PacketId) (cb : Callback) (m : t) :
  get id m = None -> delete id (set id cb m) = m.
Proof.
  unfold delete. induction m as [| [k c] rest IH]; simpl.
  - intros _. now rewrite String.eqb_refl.
  - destruct (String.eqb k id) eqn:E; [discriminate |].
    intros Hg. simpl. rewrite E. simpl. now rewrite IH.
Qed.

Lemma has_set (id : PacketId) (cb : Callback) (m : t) :
  has id (set id cb m) = true.
Proof. unfold has. now rewrite RoutingMapFacts.get_set_same. Qed.

Lemma delete_absent (id : PacketId) (m : t) :
  get id m = None -> delete id m = m.
Proof.
  unfold delete. induction m as [| [k c] rest IH]; simpl; auto.
  destruct (String.eqb k id) eqn:E; [discriminate |].
  intros Hg. simpl. now rewrite IH.
Qed.

Lemma delete_idempotent (id : PacketId) (m : t) :
  delete id (delete id m) = delete id m.
Proof. apply delete_absent, RoutingMapFacts.get_delete_same. Qed.

End RoutingMapMore.

(** ** [publish] *)

(** X1.  When the serializer accepts the packet, the client holds a socket
    and the socket accepts the message, [publish] returns the cancellation
    function of the identifier it assigned, sends the serialized packet on
    that socket, which is all it does to the world: the callback is not
    called.  The callback is registered under the identifier, and the
    connection state is as it was. *)
Theorem publish_success (env : Env) (st : State) (partialPacket : ReadPacket)
  (cb : Callback) (payload : Value) (s : SocketId) :
  serialize env (assigned env partialPacket st) = Ret payload ->
  socket st = SObj s ->
  sendMessage env (effects st) s payload = Ret tt ->
  let id := pk_id (assigned env partialPacket st) in
  let st' := snd (publish env partialPacket cb st) in
  fst (publish env partialPacket cb st) = Ret (Some (Unsubscribe id)) /\
  effects st' = (effects st ++ [SocketSend s payload])%list /\
  routingMap st' = RoutingMap.set id cb (routingMap st) /\
  RoutingMap.get id (routingMap st') = Some cb /\
  connection_state st' = connection_state st.
Proof.
  intros Hser Hsock Hsend id st'. subst id st'.
  rewrite publish_run, Hser, socket_sendMessage_registered,
    socket_sendMessage_run, Hsock, Hsend.
  cbv beta iota delta [fst snd].
  do 3 (split; [reflexivity |]). split.
  - change (routingMap
              (record (SocketSend s payload) (registered env partialPacket cb st)))
      with (RoutingMap.set (pk_id (assigned env partialPacket st)) cb
              (routingMap st)).
    apply RoutingMapFacts.get_set_same.
  - unfold connection_state. simpl. now rewrite Hsock.
Qed.

Lemma publish_success_witness :
  let st' := snd (publish Demo.env Demo.request 6 Demo.pending) in
  fst (publish Demo.env Demo.request 6 Demo.pending) =
    Ret (Some (Unsubscribe "2")) /\
  effects st' = (effects Demo.pending ++ [SocketSend 0 (Scenario.payload "2")])%list /\
  RoutingMap.get "2" (routingMap st') = Some 6.
Proof.
  pose proof (publish_success Demo.env Demo.pending Demo.request 6
                (Scenario.payload "2") 0 eq_refl eq_refl eq_refl)
    as (Hr & He & _ & Hg & _).
  repeat split; assumption.
Defined.

(** X2.  In every case [publish] leaves [isConnected], the socket, the
    connection promise and the bound listeners as they were and changes the
    routing map at no identifier other than the one it assigned.  It does
    exactly one thing to the world: either it sends one message and returns
    the cancellation function, or it calls the callback once with a failure
    and returns [undefined]; never both and never neither. *)
Theorem publish_sends_or_fails (env : Env) (st : State)
  (partialPacket : ReadPacket) (cb : Callback) :
  let id := pk_id (assigned env partialPacket st) in
  let r := fst (publish env partialPacket cb st) in
  let st' := snd (publish env partialPacket cb st) in
  connection_state st' = connection_state st /\
  listeners st' = listeners st /\
  (forall id', id' <> id ->
     RoutingMap.get id' (routingMap st') = RoutingMap.get id' (routingMap st)) /\
  ((exists s payload,
       r = Ret (Some (Unsubscribe id)) /\
       effects st' = (effects st ++ [SocketSend s payload])%list) \/
   (exists err,
       r = Ret None /\
       effects st' = (effects st ++ [Invoke cb (failure err)])%list)).
Proof.
  intros id r st'. subst id r st'. rewrite publish_run.
  destruct (serialize env (assigned env partialPacket st)) as [payload | e].
  - rewrite socket_sendMessage_registered, socket_sendMessage_run.
    assert (forall id',
               id' <> pk_id (assigned env partialPacket st) ->
               RoutingMap.get id'
                 (RoutingMap.set (pk_id (assigned env partialPacket st)) cb
                    (routingMap st)) = RoutingMap.get id' (routingMap st))
      as Hother by (intros; now apply RoutingMapFacts.get_set_other).
    destruct (socket st) as [| | s] eqn:Hsock;
      [| | destruct (sendMessage env (effects st) s payload) as [[] | e]];
      cbv beta iota delta [fst snd];
      (split; [unfold connection_state; simpl; now rewrite Hsock |]);
      (split; [reflexivity |]); (split; [exact Hother |]).
    + right. eexists. split; reflexivity.
    + right. eexists. split; reflexivity.
    + left. exists s, payload. split; reflexivity.
    + right. exists e. split; reflexivity.
  - cbv beta iota delta [fst snd].
    do 2 (split; [reflexivity |]). split; [reflexivity |].
    right. exists e. split; reflexivity.
Qed.

Lemma publish_sends_or_fails_witness :
  let st' := snd (publish Demo.env Demo.request 6 Demo.pending) in
  RoutingMap.get "1" (routingMap st') = Some 5 /\
  connection_state st' = connection_state Demo.pending.
Proof.
  pose proof (publish_sends_or_fails Demo.env Demo.pending Demo.request 6)
    as (Hc & _ & Hother & _).
  split; [| exact Hc].
  rewrite (Hother "1"); [reflexivity | discriminate].
Defined.

(** X3.  Publish and cancel is a round trip on the routing map.  When the
    assigned identifier was not pending and [publish] returned a cancellation
    function, calling that function reports that it removed an entry and
    leaves the routing map exactly as it was before [publish]; the callback
    has not been called on the way. *)
Theorem publish_cancel_roundtrip (env : Env) (st st' : State)
  (partialPacket : ReadPacket) (cb : Callback) (t : Teardown) :
  RoutingMap.get (pk_id (assigned env partialPacket st)) (routingMap st) = None ->
  publish env partialPacket cb st = (Ret (Some t), st') ->
  let st'' := snd (run_teardown t st') in
  fst (run_teardown t st') = Ret true /\
  routingMap st'' = routingMap st /\
  connection_state st'' = connection_state st /\
  exists s payload, effects st'' = (effects st ++ [SocketSend s payload])%list.
Proof.
  intros Hfresh Hpub st''. subst st''. revert Hpub. rewrite publish_run.
  destruct (serialize env (assigned env partialPacket st)) as [payload | e];
    [| discriminate].
  rewrite socket_sendMessage_registered, socket_sendMessage_run.
  destruct (socket st) as [| | s] eqn:Hsock; try discriminate.
  destruct (sendMessage env (effects st) s payload) as [[] | e];
    [| discriminate].
  cbv beta iota delta [fst snd]. intros [= <- <-].
  unfold run_teardown, bind, gets, modify, ret.
  cbv beta iota delta [fst snd].
  change (routingMap
            (record (SocketSend s payload) (registered env partialPacket cb st)))
    with (RoutingMap.set (pk_id (assigned env partialPacket st)) cb
            (routingMap st)).
  rewrite RoutingMapMore.has_set. split; [reflexivity |].
  split; [| split].
  - cbv [routingMap set_routingMap].
    now apply RoutingMapMore.delete_set_fresh.
  - unfold connection_state. simpl. now rewrite Hsock.
  - exists s, payload. reflexivity.
Qed.

Lemma publish_cancel_roundtrip_witness :
  let st' := snd (publish Demo.env Demo.request 6 Demo.pending) in
  fst (run_teardown (Unsubscribe "2") st') = Ret true /\
  routingMap (snd (run_teardown (Unsubscribe "2") st')) = routingMap Demo.pending.
Proof.
  pose proof (publish_cancel_roundtrip Demo.env Demo.pending
                (snd (publish Demo.env Demo.request 6 Demo.pending))
                Demo.request 6 (Unsubscribe "2") eq_refl eq_refl)
    as (Hr & Hm & _).
  split; assumption.
Defined.

(** X4.  A callback can be called twice for one [publish].  When the send
    fails after the callback was registered, [publish] calls the callback with
    the failure and the entry stays; the next teardown then calls the same
    callback again, with the "Connection closed" failure. *)
Theorem failed_send_callback_called_again (env : Env) (st : State)
  (partialPacket : ReadPacket) (cb : Callback) (payload e : Value) :
  serialize env (assigned env partialPacket st) = Ret payload ->
  fst (socket_sendMessage env payload st) = Throw e ->
  let id := pk_id (assigned env partialPacket st) in
  let st' := snd (publish env partialPacket cb st) in
  let st'' := snd (handleClose st') in
  effects st'' =
    ((effects st ++ [Invoke cb (failure e)])
       ++ invocations connection_closed
            (RoutingMap.values (RoutingMap.set id cb (routingMap st))))%list /\
  In (Invoke cb (failure e)) (effects st'') /\
  In (Invoke cb connection_closed) (effects st'').
Proof.
  intros Hser Hsend id st' st''. subst id st' st''.
  rewrite publish_run, Hser, socket_sendMessage_registered, Hsend.
  cbv beta iota delta [fst snd]. rewrite handleClose_run.
  cbv beta iota delta [snd].
  assert (effects
            (torn_down
               (record (Invoke cb (failure e))
                  (registered env partialPacket cb st))) =
          ((effects st ++ [Invoke cb (failure e)])
             ++ invocations connection_closed
                  (RoutingMap.values
                     (RoutingMap.set (pk_id (assigned env partialPacket st)) cb
                        (routingMap st))))%list) as He by reflexivity.
  rewrite He. split; [reflexivity |]. split.
  - apply in_or_app. left. apply in_or_app. right. left. reflexivity.
  - apply in_or_app. right. unfold invocations.
    apply (in_map (fun c : Callback => Invoke c connection_closed)).
    eapply get_Some_in_values. apply RoutingMapFacts.get_set_same.
Qed.

Lemma failed_send_callback_called_again_witness :
  let st' := snd (publish Demo.env Demo.request 9 Scenario.closed) in
  In (Invoke 9 (failure (new_TypeError "Cannot read properties")))
    (effects (snd (handleClose st'))) /\
  In (Invoke 9 connection_closed) (effects (snd (handleClose st'))).
Proof.
  pose proof (failed_send_callback_called_again Demo.env Scenario.closed
                Demo.request 9 (Scenario.payload "2")
                (new_TypeError "Cannot read properties") eq_refl eq_refl)
    as (_ & H1 & H2).
  split; assumption.
Defined.

(** ** Cancellation *)

Lemma run_teardown_run (id : PacketId) (st : State) :
  run_teardown (Unsubscribe id) st =
  (Ret (RoutingMap.has id (routingMap st)),
   set_routingMap (RoutingMap.delete id (routingMap st)) st).
Proof. reflexivity. Qed.

Lemma set_routingMap_same (st : State) : set_routingMap (routingMap st) st = st.
Proof. now destruct st. Qed.

(** X5.  Cancellation removes the entry of its own request and no other, and
    calls nobody.  A response that arrives for the cancelled identifier
    afterwards is dropped: [handleResponse] returns normally, calls no
    callback and changes nothing. *)
Theorem cancelled_response_dropped (env : Env) (st : State) (id : PacketId)
  (buffer : Value) (pkt : InPacket) :
  deserialize env buffer = Ret pkt ->
  in_id pkt = id ->
  let st1 := snd (run_teardown (Unsubscribe id) st) in
  handleResponse env buffer st1 = (Ret tt, st1) /\
  (forall id', id' <> id ->
     RoutingMap.get id' (routingMap st1) = RoutingMap.get id' (routingMap st)) /\
  effects st1 = effects st /\
  connection_state st1 = connection_state st.
Proof.
  intros Hd Hid st1. subst st1. rewrite run_teardown_run.
  cbv beta iota delta [snd]. split; [| split; [| split; reflexivity]].
  - rewrite handleResponse_run, Hd, Hid.
    change (routingMap (set_routingMap (RoutingMap.delete id (routingMap st)) st))
      with (RoutingMap.delete id (routingMap st)).
    now rewrite RoutingMapFacts.get_delete_same.
  - intros id' Hne.
    change (routingMap (set_routingMap (RoutingMap.delete id (routingMap st)) st))
      with (RoutingMap.delete id (routingMap st)).
    now apply RoutingMapFacts.get_delete_other.
Qed.

Lemma cancelled_response_dropped_witness :
  let st1 := snd (run_teardown (Unsubscribe "1") Demo.pending2) in
  handleResponse Demo.env Demo.reply_ok st1 = (Ret tt, st1) /\
  RoutingMap.get "2" (routingMap st1) = Some 6.
Proof.
  pose proof (cancelled_response_dropped Demo.env Demo.pending2 "1"
                Demo.reply_ok (mkInPacket VUndefined (VStr "ok") VUndefined "1")
                eq_refl eq_refl) as (Hrun & Hother & _).
  split; [exact Hrun |].
  rewrite (Hother "2"); [reflexivity | discriminate].
Defined.

(** X6.  Calling a cancellation function a second time, or calling it after
    a teardown emptied the routing map, reports that nothing was removed and
    changes nothing. *)
Theorem cancel_again_is_noop (st : State) (t : Teardown) :
  let st1 := snd (run_teardown t st) in
  let closed := snd (handleClose st) in
  run_teardown t st1 = (Ret false, st1) /\
  run_teardown t closed = (Ret false, closed).
Proof.
  destruct t as [id]. intros st1 closed. subst st1 closed.
  rewrite handleClose_run, !run_teardown_run.
  cbv beta iota delta [snd]. split.
  - change (routingMap (set_routingMap (RoutingMap.delete id (routingMap st)) st))
      with (RoutingMap.delete id (routingMap st)).
    rewrite RoutingMapFacts.has_delete, RoutingMapMore.delete_idempotent.
    reflexivity.
  - reflexivity.
Qed.

(** ** Messages *)

Lemma for_each_message_listener {A} (env : Env) (buffer : Value) (l : list A)
  (st : State) :
  for_each l (fun _ => run_listener env (MessageEv buffer)) st = (Ret tt, st).
Proof.
  revert st. induction l as [| a rest IH]; intros st; simpl; [reflexivity |].
  unfold bind at 1. change (message_listener env buffer st) with (Ret tt, st).
  apply IH.
Qed.

Lemma run_microtask_run (env : Env) (buffer : Value) (st : State) :
  run_microtask env (ResumeHandleResponse buffer) st =
  (Ret tt, snd (handleResponse env buffer st)).
Proof.
  unfold run_microtask, try_catch.
  destruct (handleResponse env buffer st) as [[[] | e] st']; reflexivity.
Qed.

(** X8.  A message the deserializer rejects reaches nobody: the promise of
    [handleResponse] rejects with the deserializer's error, and for the
    emitting socket the event passes without a throw and without any change
    of state. *)
Theorem rejected_message_dropped (env : Env) (st : State) (s : SocketId)
  (buffer e : Value) :
  deserialize env buffer = Throw e ->
  handleResponse env buffer st = (Throw e, st) /\
  emit env s (MessageEv buffer) st = (Ret tt, st).
Proof.
  intros Hd. split.
  - now rewrite handleResponse_run, Hd.
  - now rewrite emit_run, for_each_message_listener.
Qed.

Lemma rejected_message_dropped_witness :
  handleResponse Demo.env Scenario.garbage Demo.pending =
    (Throw (new_Error "invalid message"), Demo.pending) /\
  emit Demo.env 0 (MessageEv Scenario.garbage) Demo.pending =
    (Ret tt, Demo.pending).
Proof.
  apply (rejected_message_dropped Demo.env Demo.pending 0 Scenario.garbage
           (new_Error "invalid message")).
  reflexivity.
Defined.

(** ** The connected report and the message listener *)

Lemma filter_none {A} (f : A -> bool) (l : list A) :
  (forall a, In a l -> f a = false) -> filter f l = [].
Proof.
  induction l as [| a rest IH]; simpl; intros H; [reflexivity |].
  rewrite (H a) by now left. apply IH. intros b Hb. apply H. now right.
Qed.

Lemma no_listener_on_next_socket (st : State) (name : EventName) :
  wf st -> filter (listens (next_socket st) name) (listeners st) = [].
Proof.
  intros (_ & _ & Hl & _). apply filter_none. intros [s ev] Hin.
  apply Hl in Hin. unfold listens. simpl.
  assert (Nat.eqb s (next_socket st) = false) as -> by (apply Nat.eqb_neq; lia).
  reflexivity.
Qed.

Lemma listens_same (s : SocketId) (name ev : EventName) :
  listens s name (s, ev) = EventName_eqb ev name.
Proof. unfold listens. simpl. now rewrite Nat.eqb_refl. Qed.

Lemma connect_tap_run (st : State) :
  connect_tap st =
  match socket st with
  | SObj s => (Ret tt, add_listener s MESSAGE_EVENT (set_isConnected true st))
  | _ => (Throw (new_TypeError "Cannot read properties"), set_isConnected true st)
  end.
Proof.
  unfold connect_tap, bind, modify, this_socket, socket_on.
  cbv beta iota.
  change (socket (set_isConnected true st)) with (socket st).
  destruct (socket st); reflexivity.
Qed.

Lemma close_run (st : State) :
  close st =
  (Ret tt,
   torn_down (match socket st with SObj i => record (SocketEnd i) st | _ => st end)).
Proof.
  unfold close, bind, gets, modify, ret.
  destruct (socket st); cbv beta iota; apply handleClose_run.
Qed.

(** X9.  Until the stream has reported that it is connected, nothing the new
    socket emits as a message is routed: [connect] binds the error and close
    listeners only, so a message event on the socket it has just created
    calls no callback and changes nothing, whatever the message is. *)
Theorem no_delivery_before_connected (env : Env) (st : State) (buffer : Value) :
  wf st ->
  connection st = None ->
  let st1 := snd (connect st) in
  socket st1 = SObj (next_socket st) /\
  bound (next_socket st) ERROR_EVENT st1 = 1 /\
  bound (next_socket st) CLOSE_EVENT st1 = 1 /\
  bound (next_socket st) MESSAGE_EVENT st1 = 0 /\
  emit env (next_socket st) (MessageEv buffer) st1 = (Ret tt, st1) /\
  scheduled (next_socket st) (MessageEv buffer) st1 = [].
Proof.
  intros Hwf Hc st1. subst st1. rewrite (connect_unset_run st Hc).
  cbv beta iota delta [snd].
  assert (forall name,
             filter (listens (next_socket st) name) (listeners (connecting st)) =
             ((if EventName_eqb ERROR_EVENT name
               then [(next_socket st, ERROR_EVENT)] else [])
                ++ (if EventName_eqb CLOSE_EVENT name
                    then [(next_socket st, CLOSE_EVENT)] else []))%list) as Hf.
  { intros name.
    change (listeners (connecting st))
      with ((listeners st ++ [(next_socket st, ERROR_EVENT)])
              ++ [(next_socket st, CLOSE_EVENT)])%list.
    pose proof (no_listener_on_next_socket st name Hwf) as Hn.
    unfold SocketId in *. rewrite !filter_app, Hn. simpl.
    rewrite !listens_same. reflexivity. }
  split; [reflexivity |].
  unfold scheduled, bound. rewrite !Hf. do 3 (split; [reflexivity |]).
  split; [| reflexivity].
  rewrite emit_run. simpl event_name. rewrite Hf. reflexivity.
Qed.

Lemma no_delivery_before_connected_witness :
  let st1 := snd (connect Scenario.closed) in
  emit Demo.env 1 (MessageEv Demo.reply_ok) st1 = (Ret tt, st1).
Proof.
  assert (wf Scenario.closed) as Hwf.
  { unfold wf. vm_compute. repeat split; try discriminate.
    - intros s ev [[= <- <-] | [[= <- <-] | [[= <- <-] | []]]]; lia.
    - constructor. }
  pose proof (no_delivery_before_connected Demo.env Scenario.closed
                Demo.reply_ok Hwf eq_refl) as (_ & _ & _ & _ & H & _).
  exact H.
Defined.

(** X10.  The connected report marks the client connected before it reads
    the socket.  When it arrives after a teardown, as it may when the client
    was closed while connecting, [isConnected] becomes true although the
    client holds no socket and no connection promise; reading the discarded
    socket then throws, and no message listener is bound. *)
Theorem connected_report_after_teardown (st : State) :
  let st1 := snd (handleClose st) in
  let st2 := snd (connect_tap st1) in
  fst (connect_tap st1) = Throw (new_TypeError "Cannot read properties") /\
  isConnected st1 = false /\
  isConnected st2 = true /\
  socket st2 = SNull /\
  connection st2 = None /\
  listeners st2 = listeners st.
Proof.
  intros st1 st2. subst st1 st2. rewrite handleClose_run.
  cbv beta iota delta [snd]. rewrite connect_tap_run.
  change (socket (torn_down st)) with SNull. cbv beta iota delta [fst snd].
  repeat split.
Qed.

(** X11.  Once [connect] has run on a client without a connection and the
    stream has reported that it is connected, exactly one message listener
    is bound on the new socket.  From then on, as long as no further listener
    is bound, a message event on that socket changes nothing and calls no
    callback before it returns, and it leaves exactly one run of the rest of
    [handleResponse] for that message behind. *)
Theorem one_resume_per_message (env : Env) (st st3 : State) (buffer : Value) :
  wf st ->
  connection st = None ->
  let st2 := snd (connect_tap (snd (connect st))) in
  listeners st3 = listeners st2 ->
  isConnected st2 = true /\
  bound (next_socket st) MESSAGE_EVENT st2 = 1 /\
  emit env (next_socket st) (MessageEv buffer) st3 = (Ret tt, st3) /\
  scheduled (next_socket st) (MessageEv buffer) st3 =
    [ResumeHandleResponse buffer].
Proof.
  intros Hwf Hc st2 Hl. subst st2. revert Hl.
  rewrite (connect_unset_run st Hc). cbv beta iota delta [snd].
  rewrite connect_tap_run.
  change (socket (connecting st)) with (SObj (next_socket st)).
  cbv beta iota delta [snd].
  assert (filter (listens (next_socket st) MESSAGE_EVENT)
            (listeners
               (add_listener (next_socket st) MESSAGE_EVENT
                  (set_isConnected true (connecting st)))) =
          [(next_socket st, MESSAGE_EVENT)]) as Hf.
  { change (listeners
              (add_listener (next_socket st) MESSAGE_EVENT
                 (set_isConnected true (connecting st))))
      with (((listeners st ++ [(next_socket st, ERROR_EVENT)])
               ++ [(next_socket st, CLOSE_EVENT)])
              ++ [(next_socket st, MESSAGE_EVENT)])%list.
    pose proof (no_listener_on_next_socket st MESSAGE_EVENT Hwf) as Hn.
    unfold SocketId in *. rewrite !filter_app, Hn.
    simpl. rewrite !listens_same. reflexivity. }
  intros Hl. split; [reflexivity |]. split; [| split].
  - unfold bound. now rewrite Hf.
  - now rewrite emit_run, for_each_message_listener.
  - unfold scheduled, bound. rewrite Hl, Hf. reflexivity.
Qed.

Lemma one_resume_per_message_witness :
  emit Demo.env 0 (MessageEv Demo.reply_ok) Demo.pending = (Ret tt, Demo.pending) /\
  scheduled 0 (MessageEv Demo.reply_ok) Demo.pending =
    [ResumeHandleResponse Demo.reply_ok].
Proof.
  assert (wf Demo.fresh) as Hwf.
  { unfold wf. vm_compute. repeat split; try discriminate; try tauto.
    constructor. }
  pose proof (one_resume_per_message Demo.env Demo.fresh Demo.pending
                Demo.reply_ok Hwf eq_refl eq_refl) as (_ & _ & He & Hs).
  split; assumption.
Defined.

(** ** Events of a socket the client no longer holds *)

(** X12.  The close listener stays bound on a socket after the client let go
    of it, and it tears down whatever connection the client has by then.
    After connect, close, connect the client holds a second socket and a
    second promise; the first socket's close event, whenever it arrives
    afterwards, still runs [handleClose], which discards the second socket
    and promise and fails the requests pending on it. *)
Theorem stale_close_event (env : Env) (st : State) :
  connection st = None ->
  let s_old := next_socket st in
  let st3 := snd (connect (snd (close (snd (connect st))))) in
  socket st3 = SObj (S s_old) /\
  connection st3 = Some (S (next_promise st)) /\
  forall st4,
    listeners st4 = listeners st3 ->
    emit env s_old CloseEv st4 = handleClose st4 /\
    socket (snd (emit env s_old CloseEv st4)) = SNull /\
    connection (snd (emit env s_old CloseEv st4)) = None /\
    effects (snd (emit env s_old CloseEv st4)) =
      (effects st4
         ++ invocations connection_closed
              (RoutingMap.values (routingMap st4)))%list.
Proof.
  intros Hc s_old st3. subst s_old st3.
  rewrite (connect_unset_run st Hc). cbv beta iota delta [snd].
  rewrite close_run.
  change (socket (connecting st)) with (SObj (next_socket st)).
  cbv beta iota delta [snd].
  rewrite connect_unset_run by reflexivity.
  cbv beta iota delta [snd].
  split; [reflexivity |]. split; [reflexivity |].
  intros st4 Hl.
  assert (In (next_socket st, CLOSE_EVENT) (listeners st4)) as Hin.
  { rewrite Hl.
    change (In (next_socket st, CLOSE_EVENT)
              ((((listeners st ++ [(next_socket st, ERROR_EVENT)])
                   ++ [(next_socket st, CLOSE_EVENT)])
                  ++ [(S (next_socket st), ERROR_EVENT)])
                 ++ [(S (next_socket st), CLOSE_EVENT)])%list).
    apply in_or_app. left. apply in_or_app. left. apply in_or_app. right.
    left. reflexivity. }
  rewrite (emit_close_run env (next_socket st) st4 Hin), handleClose_run.
  repeat split.
Qed.

Lemma stale_close_event_witness :
  let st3 := snd (connect (snd (close (snd (connect Demo.fresh))))) in
  let st4 := snd (publish Demo.env Demo.request 5 st3) in
  socket st4 = SObj 1 /\
  socket (snd (emit Demo.env 0 CloseEv st4)) = SNull /\
  In (Invoke 5 connection_closed) (effects (snd (emit Demo.env 0 CloseEv st4))).
Proof.
  intros st3 st4.
  destruct (stale_close_event Demo.env Demo.fresh eq_refl) as (_ & _ & H).
  destruct (H st4 eq_refl) as (_ & Hs & _ & He).
  split; [reflexivity |]. split; [exact Hs |].
  change (emit Demo.env 0 CloseEv st4)
    with (emit Demo.env (next_socket Demo.fresh) CloseEv st4).
  rewrite He. apply in_or_app. right. vm_compute. left. reflexivity.
Defined.

(** ** [dispatchEvent] *)

Lemma dispatchEvent_run (env : Env) (normalizePattern : Value -> Value)
  (serializeEvent : ReadPacket -> Result Value) (packet : ReadPacket)
  (st : State) :
  dispatchEvent env normalizePattern serializeEvent packet st =
  match
    serializeEvent
      (mkReadPacket (normalizePattern (rp_pattern packet)) (rp_data packet))
  with
  | Ret payload => socket_sendMessage env payload st
  | Throw e => (Throw e, st)
  end.
Proof.
  unfold dispatchEvent, bind, lift.
  destruct (serializeEvent _); reflexivity.
Qed.

(** X13.  [dispatchEvent] assigns no identifier, registers and calls no
    callback and leaves the connection state and the listeners alone.  Either
    its promise resolves and exactly one message went out on the socket the
    client holds, namely the serialized packet with its pattern normalized;
    or its promise rejects and the state is exactly as before. *)
Theorem dispatchEvent_sends_or_rejects (env : Env)
  (normalizePattern : Value -> Value)
  (serializeEvent : ReadPacket -> Result Value) (packet : ReadPacket)
  (st : State) :
  let run := dispatchEvent env normalizePattern serializeEvent packet st in
  routingMap (snd run) = routingMap st /\
  next_packet (snd run) = next_packet st /\
  connection_state (snd run) = connection_state st /\
  listeners (snd run) = listeners st /\
  ((exists s payload,
       fst run = Ret tt /\
       socket st = SObj s /\
       serializeEvent
         (mkReadPacket (normalizePattern (rp_pattern packet)) (rp_data packet))
       = Ret payload /\
       effects (snd run) = (effects st ++ [SocketSend s payload])%list) \/
   (exists e, run = (Throw e, st))).
Proof.
  intros run. subst run. rewrite dispatchEvent_run.
  destruct (serializeEvent _) as [payload | e] eqn:Hser.
  - rewrite socket_sendMessage_run.
    destruct (socket st) as [| | s] eqn:Hsock;
      [| | destruct (sendMessage env (effects st) s payload) as [[] | e]];
      cbv beta iota delta [fst snd];
      (do 2 (split; [reflexivity |]));
      (split; [unfold connection_state; simpl; now rewrite ?Hsock |]);
      (split; [reflexivity |]).
    + right. eexists. reflexivity.
    + right. eexists. reflexivity.
    + left. exists s, payload. repeat split.
    + right. exists e. reflexivity.
  - cbv beta iota delta [fst snd]. repeat split.
    right. exists e. reflexivity.
Qed.

(** X14.  On a client that holds no socket, because it never connected or
    was torn down, [dispatchEvent] sends nothing and changes nothing, and its
    promise rejects: with the serializer's error when the serializer refuses
    the event, as the serializer runs first, and otherwise with the
    [TypeError] of reading the missing socket. *)
Theorem dispatchEvent_without_socket (env : Env)
  (normalizePattern : Value -> Value)
  (serializeEvent : ReadPacket -> Result Value) (packet : ReadPacket)
  (st : State) :
  (forall s, socket st <> SObj s) ->
  dispatchEvent env normalizePattern serializeEvent packet st =
  (Throw
     match
       serializeEvent
         (mkReadPacket (normalizePattern (rp_pattern packet)) (rp_data packet))
     with
     | Ret _ => new_TypeError "Cannot read properties"
     | Throw e => e
     end,
   st).
Proof.
  intros Hno. rewrite dispatchEvent_run.
  destruct (serializeEvent _) as [payload | e]; [| reflexivity].
  rewrite socket_sendMessage_run.
  destruct (socket st) as [| | s] eqn:Hsock; try reflexivity.
  now elim (Hno s).
Qed.

Lemma dispatchEvent_without_socket_witness :
  dispatchEvent Demo.env Scenario.normalizePattern Scenario.serializeEvent
    Scenario.event Scenario.closed =
  (Throw (new_TypeError "Cannot read properties"), Scenario.closed).
Proof.
  apply (dispatchEvent_without_socket Demo.env Scenario.normalizePattern
           Scenario.serializeEvent Scenario.event Scenario.closed).
  intros s. discriminate.
Defined.

(** ** Identifiers that repeat *)

Lemma values_set_replaces (id : PacketId) (cb c : Callback) (m : RoutingMap.t) :
  NoDup (RoutingMap.keys m) ->
  In c (RoutingMap.values (RoutingMap.set id cb m)) ->
  c = cb \/ In c (RoutingMap.values (RoutingMap.delete id m)).
Proof.
  induction m as [| [k c0] rest IH]; simpl; intros Hnd Hin.
  - destruct Hin as [<- | []]. now left.
  - inversion Hnd as [| ? ? Hk Hrest]; subst.
    unfold RoutingMap.delete. simpl.
    destruct (String.eqb k id) eqn:E; simpl in *.
    + apply String.eqb_eq in E. subst k.
      destruct Hin as [<- | Hin]; [now left | right].
      fold (RoutingMap.delete id rest).
      rewrite RoutingMapMore.delete_absent; [exact Hin |].
      now apply RoutingMapFacts.get_None_not_key.
    + destruct Hin as [<- | Hin]; [right; now left |].
      destruct (IH Hrest Hin) as [-> | Hin']; [now left | right; now right].
Qed.

(** X15.  [publish] relies on the identifier source never repeating an
    identifier that is still pending.  When it does, the new callback takes
    the place of the pending one under that identifier: the routing map keeps
    its keys, and the callback that was pending is no longer reachable
    through it unless it is also registered under another identifier, so
    neither a response nor a teardown calls it. *)
Theorem publish_replaces_pending_callback (env : Env) (st : State)
  (partialPacket : ReadPacket) (cb cb_old : Callback) (payload : Value) :
  wf st ->
  serialize env (assigned env partialPacket st) = Ret payload ->
  RoutingMap.get (pk_id (assigned env partialPacket st)) (routingMap st)
  = Some cb_old ->
  let id := pk_id (assigned env partialPacket st) in
  let st' := snd (publish env partialPacket cb st) in
  RoutingMap.keys (routingMap st') = RoutingMap.keys (routingMap st) /\
  RoutingMap.get id (routingMap st') = Some cb /\
  (forall c,
      In c (RoutingMap.values (routingMap st')) ->
      c = cb \/ In c (RoutingMap.values (RoutingMap.delete id (routingMap st)))).
Proof.
  intros (_ & _ & _ & Hnd) Hser Hold id st'. subst id st'.
  assert (routingMap (snd (publish env partialPacket cb st)) =
          RoutingMap.set (pk_id (assigned env partialPacket st)) cb (routingMap st))
    as Hmap.
  { rewrite publish_run, Hser, socket_sendMessage_registered.
    destruct (fst (socket_sendMessage env payload st)) as [[] | e];
      [destruct (socket st) |]; reflexivity. }
  rewrite Hmap. split; [| split].
  - rewrite RoutingMapFacts.keys_set. unfold RoutingMap.has. now rewrite Hold.
  - apply RoutingMapFacts.get_set_same.
  - intros c. now apply values_set_replaces.
Qed.

Lemma publish_replaces_pending_callback_witness :
  let st' := snd (publish Scenario.repeating Demo.request 7 Demo.pending) in
  RoutingMap.keys (routingMap st') = ["1"] /\
  RoutingMap.get "1" (routingMap st') = Some 7.
Proof.
  assert (wf Demo.pending) as Hwf.
  { unfold wf. vm_compute. repeat split.
    - intros p [= <-]. lia.
    - intros s [= <-]. lia.
    - intros s ev [[= <- <-] | [[= <- <-] | [[= <- <-] | []]]]; lia.
    - repeat constructor; simpl; intuition discriminate. }
  pose proof (publish_replaces_pending_callback Scenario.repeating Demo.pending
                Demo.request 7 5 (Scenario.payload "1") Hwf eq_refl eq_refl)
    as (Hk & Hg & _).
  split; assumption.
Defined.

(** ** Invariants of the reachable states *)

Lemma for_each_keeps {A} (P : State -> Prop) (l : list A) (f : A -> M unit) :
  (forall a st, P st -> P (snd (f a st))) ->
  forall st, P st -> P (snd (for_each l f st)).
Proof.
  intros Hf. induction l as [| a rest IH]; intros st H; simpl; [exact H |].
  unfold bind. specialize (Hf a st H).
  destruct (f a st) as [[[] | e] st1]; simpl in *; [now apply IH | exact Hf].
Qed.

Lemma publish_keeps_fields (env : Env) (partialPacket : ReadPacket)
  (cb : Callback) (st : State) :
  let st' := snd (publish env partialPacket cb st) in
  socket st' = socket st /\ connection st' = connection st /\
  isConnected st' = isConnected st /\ listeners st' = listeners st.
Proof.
  intros st'. subst st'. rewrite publish_run.
  destruct (serialize env (assigned env partialPacket st)) as [payload | e].
  - rewrite socket_sendMessage_registered.
    destruct (fst (socket_sendMessage env payload st)) as [[] | e];
      [destruct (socket st) eqn:Hsock |]; repeat split; simpl; auto.
  - repeat split.
Qed.

Lemma run_listener_keeps_listeners (env : Env) (ev : SocketEvent) (st : State) :
  listeners (snd (run_listener env ev st)) = listeners st.
Proof.
  destruct ev as [err | | buffer]; simpl.
  - rewrite error_listener_run.
    destruct (get_prop err "code") as [code | e]; [| reflexivity].
    destruct (strict_eq_str code (ECONNREFUSED env)); reflexivity.
  - unfold close_listener. now rewrite handleClose_run.
  - reflexivity.
Qed.

Lemma socket_matches_connection_fields (st st' : State) :
  socket st' = socket st ->
  connection st' = connection st ->
  socket_matches_connection st -> socket_matches_connection st'.
Proof. unfold socket_matches_connection. now intros -> ->. Qed.

Lemma run_listener_keeps_matching (env : Env) (ev : SocketEvent) (st : State) :
  socket_matches_connection st ->
  socket_matches_connection (snd (run_listener env ev st)).
Proof.
  intros H. destruct ev as [err | | buffer]; simpl.
  - rewrite error_listener_run.
    destruct (get_prop err "code") as [code | e]; [| exact H].
    destruct (strict_eq_str code (ECONNREFUSED env)); exact H.
  - unfold close_listener. rewrite handleClose_run. exact I.
  - exact H.
Qed.

Lemma step_keeps_matching (env : Env) (st st' : State) :
  step env st st' ->
  socket_matches_connection st -> socket_matches_connection st'.
Proof.
  intros Hstep H. destruct Hstep.
  - destruct (connection st) as [p |] eqn:Hc.
    + now rewrite (connect_set_run st p Hc).
    + rewrite (connect_unset_run st Hc). exact I.
  - rewrite connect_tap_run.
    destruct (socket st) eqn:Hsock;
      apply (socket_matches_connection_fields st); try exact H; reflexivity.
  - rewrite close_run. exact I.
  - rewrite handleClose_run. exact I.
  - exact H.
  - rewrite handleResponse_run.
    destruct (deserialize env buffer) as [pkt | e]; [| exact H].
    destruct (RoutingMap.get (in_id pkt) (routingMap st)); exact H.
  - destruct (publish_keeps_fields env partialPacket cb st) as (Hs & Hc & _).
    now apply (socket_matches_connection_fields st).
  - destruct t as [id]. exact H.
  - rewrite emit_run. apply for_each_keeps; [| exact H].
    intros _ s0. apply run_listener_keeps_matching.
Qed.

(** X16.  Every state a client reaches from its constructor, by calls of its
    methods and of cancellation functions, connected reports and socket
    events in any order, is well formed: the promise and the socket it holds
    and the sockets its listeners are bound on were created earlier, so the
    next ones are new, and no identifier occurs twice in the routing map. *)
Theorem reachable_wf (env : Env) (st : State) : reachable env st -> wf st.
Proof.
  induction 1 as [options | st st' _ IH Hstep].
  - apply wf_constructor.
  - destruct Hstep.
    + now apply preserves_connect.
    + now apply preserves_connect_tap.
    + now apply preserves_close.
    + now apply preserves_handleClose.
    + exact IH.
    + now apply preserves_handleResponse.
    + now apply preserves_publish.
    + now apply preserves_run_teardown.
    + now apply preserves_emit.
Qed.

Lemma reachable_wf_witness : wf Demo.pending.
Proof.
  apply (reachable_wf Demo.env).
  apply (reachable_step Demo.env Demo.connected);
    [| exact (step_publish Demo.env Demo.request 5 Demo.connected)].
  apply (reachable_step Demo.env (snd (connect Demo.fresh)));
    [| exact (step_connect_tap Demo.env (snd (connect Demo.fresh)))].
  apply (reachable_step Demo.env Demo.fresh);
    [| exact (step_connect Demo.env Demo.fresh)].
  exact (reachable_new Demo.env Demo.options).
Defined.

(** X17.  In every reachable state the client holds a socket exactly when it
    holds a connection promise: [connect] sets both, a teardown clears both,
    and nothing else touches either. *)
Theorem reachable_socket_iff_connection (env : Env) (st : State) :
  reachable env st ->
  (exists s, socket st = SObj s) <-> (exists p, connection st = Some p).
Proof.
  intros Hreach.
  assert (socket_matches_connection st) as H.
  { induction Hreach as [options | st st' _ IH Hstep]; [exact I |].
    now apply (step_keeps_matching env st). }
  unfold socket_matches_connection in H.
  destruct (socket st) as [| | s], (connection st) as [p |];
    try contradiction; split; intros [x Hx]; try discriminate; eauto.
Qed.

Lemma reachable_socket_iff_connection_witness :
  (exists s, socket Scenario.closed = SObj s) <->
  (exists p, connection Scenario.closed = Some p).
Proof.
  apply (reachable_socket_iff_connection Demo.env).
  apply (reachable_step Demo.env Demo.pending);
    [| exact (step_close Demo.env Demo.pending)].
  apply (reachable_step Demo.env Demo.connected);
    [| exact (step_publish Demo.env Demo.request 5 Demo.connected)].
  apply (reachable_step Demo.env (snd (connect Demo.fresh)));
    [| exact (step_connect_tap Demo.env (snd (connect Demo.fresh)))].
  apply (reachable_step Demo.env Demo.fresh);
    [| exact (step_connect Demo.env Demo.fresh)].
  exact (reachable_new Demo.env Demo.options).
Defined.

(** X18.  No step ever unbinds a listener: after any method call,
    cancellation, connected report or socket event the listeners bound before
    are still bound, in the same order, possibly followed by new ones.  So
    each connecting cycle leaves its error and close listeners behind on the
    socket it created. *)
Theorem listeners_never_unbound (env : Env) (st st' : State) :
  step env st st' -> exists l, listeners st' = (listeners st ++ l)%list.
Proof.
  intros Hstep.
  destruct Hstep.
  - destruct (connection st) as [p |] eqn:Hc.
    + rewrite (connect_set_run st p Hc). exists []. (rewrite app_nil_r; reflexivity).
    + rewrite (connect_unset_run st Hc).
      exists [(next_socket st, ERROR_EVENT); (next_socket st, CLOSE_EVENT)].
      simpl. now rewrite <- app_assoc.
  - rewrite connect_tap_run. destruct (socket st) as [| | s].
    + exists []. (rewrite app_nil_r; reflexivity).
    + exists []. (rewrite app_nil_r; reflexivity).
    + exists [(s, MESSAGE_EVENT)]. reflexivity.
  - rewrite close_run. exists []. simpl. destruct (socket st); (rewrite app_nil_r; reflexivity).
  - rewrite handleClose_run. exists []. (rewrite app_nil_r; reflexivity).
  - exists []. (rewrite app_nil_r; reflexivity).
  - rewrite handleResponse_run. exists [].
    destruct (deserialize env buffer) as [pkt | e]; [| (rewrite app_nil_r; reflexivity)].
    destruct (RoutingMap.get (in_id pkt) (routingMap st)); (rewrite app_nil_r; reflexivity).
  - destruct (publish_keeps_fields env partialPacket cb st) as (_ & _ & _ & Hl).
    exists []. rewrite Hl. (rewrite app_nil_r; reflexivity).
  - destruct t as [id]. exists []. (rewrite app_nil_r; reflexivity).
  - exists []. rewrite emit_run.
    apply (for_each_keeps
             (fun s0 => listeners s0 = (listeners st ++ [])%list));
      [| now rewrite app_nil_r].
    intros _ s0 H0. now rewrite run_listener_keeps_listeners.
Qed.

Lemma listeners_never_unbound_witness :
  exists l,
    listeners (snd (connect Scenario.closed)) = (listeners Scenario.closed ++ l)%list.
Proof.
  apply (listeners_never_unbound Demo.env).
  exact (step_connect Demo.env Scenario.closed).
Defined.

(** ** The first connection, the connected flag, late messages *)

(** X19.  The first [connect] on a newly constructed client returns its
    first promise and leaves [isConnected] false.  With TLS options it only
    creates the TLS socket, which connects as it is built; without, it creates
    a plain socket and issues one stream-level connect, to the port and host
    of the options, each replaced by its default when the option is missing
    or otherwise falsy, such as port 0. *)
Theorem first_connect_target (env : Env) (options : Options) :
  let st0 := constructor env options in
  fst (connect st0) = Ret 0 /\
  isConnected (snd (connect st0)) = false /\
  effects (snd (connect st0)) =
    if truthy (opt_tlsOptions options) then [SocketCreate 0 true]
    else
      [SocketCreate 0 false;
       SocketConnect 0
         (if truthy (opt_port options) then opt_port options
          else TCP_DEFAULT_PORT env)
         (if truthy (opt_host options) then opt_host options
          else TCP_DEFAULT_HOST env)].
Proof.
  intros st0. subst st0. rewrite connect_unset_run by reflexivity.
  cbv beta iota delta [fst snd]. split; [reflexivity |]. split; [reflexivity |].
  unfold connecting, connecting_effects, constructor, js_or.
  cbv beta iota delta [effects tlsOptions next_socket port host app].
  destruct (truthy (opt_tlsOptions options)); reflexivity.
Qed.

(** X20.  [publish] never looks at [isConnected]: started with the flag set
    either way it returns the same result and does the same to the routing
    map and to the world.  A send is attempted whenever the client holds a
    socket, also before the stream has reported that it is connected. *)
Theorem publish_ignores_isConnected (env : Env) (st : State)
  (partialPacket : ReadPacket) (cb : Callback) (b : bool) :
  publish env partialPacket cb (set_isConnected b st) =
  (fst (publish env partialPacket cb st),
   set_isConnected b (snd (publish env partialPacket cb st))).
Proof.
  rewrite !publish_run.
  change (assigned env partialPacket (set_isConnected b st))
    with (assigned env partialPacket st).
  destruct (serialize env (assigned env partialPacket st)) as [payload | e];
    [| reflexivity].
  rewrite !socket_sendMessage_run.
  change (socket (registered env partialPacket cb (set_isConnected b st)))
    with (socket st).
  change (socket (registered env partialPacket cb st)) with (socket st).
  change (effects (registered env partialPacket cb (set_isConnected b st)))
    with (effects st).
  change (effects (registered env partialPacket cb st)) with (effects st).
  destruct (socket st) as [| | s]; try reflexivity.
  destruct (sendMessage env (effects st) s payload) as [[] | e]; reflexivity.
Qed.

(** X21.  After a teardown a late message reaches nobody.  The routing map
    is empty, so whatever a socket still emits as a message, for whatever
    identifier, calls no callback and changes nothing; and the rest of a
    [handleResponse] that had suspended before the teardown, when it runs
    after it, finds no callback and changes nothing either. *)
Theorem no_delivery_after_teardown (env : Env) (st : State) (s : SocketId)
  (buffer : Value) :
  let closed := snd (handleClose st) in
  emit env s (MessageEv buffer) closed = (Ret tt, closed) /\
  run_microtask env (ResumeHandleResponse buffer) closed = (Ret tt, closed).
Proof.
  intros closed. subst closed. rewrite handleClose_run.
  cbv beta iota delta [snd]. split.
  - now rewrite emit_run, for_each_message_listener.
  - rewrite run_microtask_run, handleResponse_run.
    destruct (deserialize env buffer); reflexivity.
Qed.
